(** * Faradayy7/test_suite: the test-data lifecycle engine, verified

    A shallow embedding of the JavaScript sources

      - [test/utils/test-data-manager.js]   (class [TestDataManager])
      - [test/utils/api-client.js]          (class [ApiClient])
      - the coupon and category scenarios with their fixture cleanup

    JavaScript values live in a heap of objects and arrays addressed by
    locations, so that reference identity ([Array.prototype.includes],
    [Object.is]) and aliasing of arrays are what they are in the source.
    Code that can throw runs in a state-and-exception monad whose state
    survives a throw, as a JavaScript heap does. *)

From stdpp Require Import gmap strings list fin_maps pretty.
From Stdlib Require Import Ascii ZArith QArith Qround.

#[local] Open Scope Z_scope.
#[local] Open Scope string_scope.
#[local] Open Scope list_scope.

(* ===================================================================== *)
(** ** JavaScript values, heap and primitive operations                   *)
(* ===================================================================== *)

Module JS.

Definition loc := positive.

(** Number values are the integers (identifiers, counters and HTTP status
    codes); [NaN], infinities and fractions do not occur in the data the
    engine handles.  The one fractional quantity, the draw of
    [Math.random], is a rational of its own (see [getRandomGroupId]). *)
Inductive value : Type :=
  | VUndefined
  | VNull
  | VBool (b : bool)
  | VNum (n : Z)
  | VStr (s : string)
  | VRef (l : loc).

Arguments VRef l%_positive.

#[global] Instance value_eq_dec : EqDecision value.
Proof. solve_decision. Defined.

(** An object keeps its own enumerable string-keyed properties in
    enumeration order; an array keeps its elements. *)
Inductive object : Type :=
  | OObj (props : list (string * value))
  | OArr (elems : list value).

Abbreviation heap := (gmap loc object).

(** What a [throw] carries.  Everything thrown in the modelled code is an
    [Error] instance: [TypeError] from reading a property of [null] or
    [undefined], the transport's and the JSON decoder's errors, the
    failure of an [expect], and the signal raised by [test.skip()]. *)
Inductive exn : Type :=
  | TypeError (msg : string)
  | Error (msg : string)
  | ExpectError (msg : string)
  | SkipSignal.

Definition message (e : exn) : string :=
  match e with
  | TypeError m | Error m | ExpectError m => m
  | SkipSignal => "Test is skipped"
  end.

Inductive result (A : Type) : Type :=
  | Ok (a : A)
  | Throw (e : exn).
Arguments Ok {A} a.
Arguments Throw {A} e.

#[global] Instance result_ret : MRet result := fun A a => Ok a.

#[global] Instance result_bind : MBind result := fun A B f r =>
  match r with
  | Ok a => f a
  | Throw e => Throw e
  end.

(** [ToBoolean]. *)
Definition truthy (v : value) : bool :=
  match v with
  | VUndefined | VNull => false
  | VBool b => b
  | VNum n => negb (n =? 0)%Z
  | VStr s => negb (bool_decide (s = ""))
  | VRef _ => true
  end.

(** [typeof]: there are no function objects in the data. *)
Definition typeof (v : value) : string :=
  match v with
  | VUndefined => "undefined"
  | VNull => "object"
  | VBool _ => "boolean"
  | VNum _ => "number"
  | VStr _ => "string"
  | VRef _ => "object"
  end.

Definition is_scalar (v : value) : bool :=
  match v with
  | VBool _ | VNum _ | VStr _ => true
  | _ => false
  end.

Definition isArray (h : heap) (v : value) : bool :=
  match v with
  | VRef l => match h !! l with Some (OArr _) => true | _ => false end
  | _ => false
  end.

Definition elements (h : heap) (v : value) : list value :=
  match v with
  | VRef l => match h !! l with Some (OArr es) => es | _ => [] end
  | _ => []
  end.

Fixpoint assoc (k : string) (ps : list (string * value)) : option value :=
  match ps with
  | [] => None
  | (k', v) :: ps' => if bool_decide (k = k') then Some v else assoc k ps'
  end.

(** [v.k] for a [v] that is neither [null] nor [undefined], and a key [k]
    among those the sources read ([data], [status], [group], [code],
    [_id], [detail], [amount], [token]): none of them is a property of a
    primitive's wrapper, of [Array.prototype] or of [Object.prototype], so
    only a plain object can answer anything but [undefined]. *)
Definition get_own (h : heap) (v : value) (k : string) : value :=
  match v with
  | VRef l =>
      match h !! l with
      | Some (OObj ps) => default VUndefined (assoc k ps)
      | _ => VUndefined
      end
  | _ => VUndefined
  end.

(** [v.k] in general: a [TypeError] on [null] and [undefined]. *)
Definition get_prop (h : heap) (v : value) (k : string) : result value :=
  match v with
  | VUndefined =>
      Throw (TypeError ("Cannot read properties of undefined (reading '" ++ k ++ "')"))
  | VNull =>
      Throw (TypeError ("Cannot read properties of null (reading '" ++ k ++ "')"))
  | _ => Ok (get_own h v k)
  end.


(** Allocation of a new object: a location the heap does not use yet. *)
Definition alloc (o : object) (h : heap) : loc * heap :=
  let l := fresh (dom h) in (l, <[l := o]> h).

(** [ToString].  A number prints in decimal; an array prints its
    elements joined by commas, [null] and [undefined] elements as empty
    strings, and an array met again inside itself as the empty string;
    any other object prints as [[object Object]]. *)
Fixpoint to_string_fuel (fuel : nat) (h : heap) (seen : list loc) (v : value) : string :=
  match v with
  | VUndefined => "undefined"
  | VNull => "null"
  | VBool true => "true"
  | VBool false => "false"
  | VNum n => pretty n
  | VStr s => s
  | VRef l =>
      match h !! l with
      | Some (OArr es) =>
          match fuel with
          | O => ""
          | S fuel' =>
              if bool_decide (l ∈ seen) then ""
              else String.concat ","
                     (map (fun e => match e with
                                    | VUndefined | VNull => ""
                                    | _ => to_string_fuel fuel' h (l :: seen) e
                                    end) es)
          end
      | _ => "[object Object]"
      end
  end.

Definition ToString (h : heap) (v : value) : string :=
  to_string_fuel (S (size h)) h [] v.

(** [s.includes(sub)]. *)
Definition str_includes (s sub : string) : bool :=
  match String.index 0 sub s with
  | Some _ => true
  | None => false
  end.

End JS.

Export JS.

(* ===================================================================== *)
(** ** [test/utils/test-data-manager.js]                                  *)
(* ===================================================================== *)

Module TestDataManager.

(** The three fields of a [TestDataManager] hold references to arrays. *)
Record manager : Type := Manager {
  groupIds : loc;
  couponCodes : loc;
  coupons : loc
}.

(** A method runs on its receiver [this] and on the heap. *)
Record world : Type := World {
  this : manager;
  mem : heap
}.

(** State and exceptions; the state reached at a [throw] is kept. *)
Definition M (A : Type) : Type := world -> result A * world.

#[global] Instance M_ret : MRet M := fun A a w => (Ok a, w).

#[global] Instance M_bind : MBind M := fun A B f m w =>
  match m w with
  | (Ok a, w') => f a w'
  | (Throw e, w') => (Throw e, w')
  end.

Definition lift {A} (r : heap -> result A) : M A := fun w => (r (mem w), w).

Definition read {A} (f : world -> A) : M A := fun w => (Ok (f w), w).

(** [[]]: a new empty array. *)
Definition new_array (es : list value) : M loc := fun w =>
  let '(l, h) := alloc (OArr es) (mem w) in (Ok l, World (this w) h).

Definition set_groupIds (l : loc) : M unit := fun w =>
  (Ok tt, World (Manager l (couponCodes (this w)) (coupons (this w))) (mem w)).
Definition set_couponCodes (l : loc) : M unit := fun w =>
  (Ok tt, World (Manager (groupIds (this w)) l (coupons (this w))) (mem w)).
Definition set_coupons (l : loc) : M unit := fun w =>
  (Ok tt, World (Manager (groupIds (this w)) (couponCodes (this w)) l) (mem w)).

(** [this.f.push(v)] and [this.f.includes(v)] for a field [f] that
    holds an array.  [includes] compares with
    SameValueZero, which on these values is equality: references by
    location, strings and numbers by content. *)
Definition push_heap (l : loc) (v : value) (h : heap) : heap :=
  match h !! l with
  | Some (OArr es) => <[l := OArr (es ++ [v])]> h
  | _ => h
  end.

Definition push (f : manager -> loc) (v : value) : M unit := fun w =>
  (Ok tt, World (this w) (push_heap (f (this w)) v (mem w))).

Definition contents (f : manager -> loc) (w : world) : list value :=
  elements (mem w) (VRef (f (this w))).

Definition includes (f : manager -> loc) (v : value) : M bool :=
  read (fun w => bool_decide (v ∈ contents f w)).

Definition new_TestDataManager (h : heap) : world :=
  let '(lg, h1) := alloc (OArr []) h in
  let '(lc, h2) := alloc (OArr []) h1 in
  let '(lk, h3) := alloc (OArr []) h2 in
  World (Manager lg lc lk) h3.

(** The body of the [forEach] callback of [processCouponsData]. *)
Definition scanCoupon (coupon : value) : M unit :=
  push coupons coupon ;;
  group ← lift (fun h => get_prop h coupon "group");
  (if truthy group then
     isObjWithId ←
       (if bool_decide (typeof group = "object")
        then id ← lift (fun h => get_prop h group "_id"); mret (truthy id)
        else mret false);
     groupId ←
       (if isObjWithId : bool
        then lift (fun h => get_prop h group "_id")
        else mret group);
     seen ← includes groupIds groupId;
     if truthy groupId && negb seen then push groupIds groupId else mret tt
   else mret tt) ;;
  code ← lift (fun h => get_prop h coupon "code");
  seen ← includes couponCodes code;
  if truthy code && negb seen then push couponCodes code else mret tt.

(** [xs.forEach(f)]: the callback never writes to the array it walks
    (it pushes to arrays allocated after [xs] was read), so the walk is
    over the elements read at the start. *)
Fixpoint forEach (f : value -> M unit) (xs : list value) : M unit :=
  match xs with
  | [] => mret tt
  | x :: xs' => f x ;; forEach f xs'
  end.

Definition processCouponsData (couponsResponse : value) : M unit :=
  if negb (truthy couponsResponse) then mret tt else
  data ← lift (fun h => get_prop h couponsResponse "data");
  if negb (truthy data) then mret tt else
  isArr ← read (fun w => isArray (mem w) data);
  if negb isArr then mret tt else
  cs ← read (fun w => elements (mem w) data);
  lg ← new_array []; set_groupIds lg ;;
  lc ← new_array []; set_couponCodes lc ;;
  lk ← new_array []; set_coupons lk ;;
  forEach scanCoupon cs.

(** [[...this.f]]: a new array with the elements of the field. *)
Definition spread (f : manager -> loc) : M value :=
  es ← read (contents f);
  l ← new_array es;
  mret (VRef l).

Definition getAllGroupIds : M value := spread groupIds.
Definition getAllCouponCodes : M value := spread couponCodes.
Definition getAllCoupons : M value := spread coupons.

(** [Math.floor(Math.random() * n)] for a draw [r] of [Math.random];
    the product is taken exactly. *)
Definition randomIndex (r : Q) (n : nat) : Z :=
  Qfloor (r * inject_Z (Z.of_nat n)).

Definition pickRandom (f : manager -> loc) (r : Q) : M value :=
  es ← read (contents f);
  if bool_decide (length es = 0%nat) then mret VNull
  else mret (default VUndefined (es !! Z.to_nat (randomIndex r (length es)))).

Definition getRandomGroupId (r : Q) : M value := pickRandom groupIds r.
Definition getRandomCouponCode (r : Q) : M value := pickRandom couponCodes r.
Definition getRandomCoupon (r : Q) : M value := pickRandom coupons r.

Record stats : Type := Stats {
  totalCoupons : nat;
  uniqueGroupIds : nat;
  uniqueCouponCodes : nat
}.

Definition getStats : M stats :=
  read (fun w => Stats (length (contents coupons w))
                       (length (contents groupIds w))
                       (length (contents couponCodes w))).

Definition clear : M unit :=
  lg ← new_array []; set_groupIds lg ;;
  lc ← new_array []; set_couponCodes lc ;;
  lk ← new_array []; set_coupons lk.

(** *** What one call of [processCouponsData] computes, as functions of
    the scanned list

    [resolveGroup] is the value the callback calls [groupId] (and
    [undefined] when [coupon.group] is falsy, where the callback does
    nothing); [scan] replays the callback on the three lists. *)

Definition nullish (v : value) : bool :=
  match v with
  | VUndefined | VNull => true
  | _ => false
  end.

Definition resolveGroup (h : heap) (coupon : value) : value :=
  let group := get_own h coupon "group" in
  if truthy group then
    if bool_decide (typeof group = "object") && truthy (get_own h group "_id")
    then get_own h group "_id"
    else group
  else VUndefined.

Definition codeOf (h : heap) (coupon : value) : value :=
  get_own h coupon "code".

Definition add_new (acc : list value) (v : value) : list value :=
  if truthy v && negb (bool_decide (v ∈ acc)) then acc ++ [v] else acc.

Record indexes : Type := Indexes {
  ix_groupIds : list value;
  ix_couponCodes : list value;
  ix_coupons : list value
}.

Fixpoint scan (h : heap) (cs : list value) (ix : indexes) : result unit * indexes :=
  match cs with
  | [] => (Ok tt, ix)
  | c :: cs' =>
      match get_prop h c "group" with
      | Throw e =>
          (Throw e, Indexes (ix_groupIds ix) (ix_couponCodes ix) (ix_coupons ix ++ [c]))
      | Ok _ =>
          scan h cs' (Indexes (add_new (ix_groupIds ix) (resolveGroup h c))
                              (add_new (ix_couponCodes ix) (codeOf h c))
                              (ix_coupons ix ++ [c]))
      end
  end.

(** The records the callback went through completely: those before the
    first [null] or [undefined] element. *)
Fixpoint scanned (cs : list value) : list value :=
  match cs with
  | [] => []
  | c :: cs' => if nullish c then [] else c :: scanned cs'
  end.

(** Keep the first occurrence of every value, in order. *)
Fixpoint dedup_first (l : list value) : list value :=
  match l with
  | [] => []
  | x :: l' => x :: filter (fun y => y ≠ x) (dedup_first l')
  end.

(** The heap after the call: the heap before it and three new arrays. *)
Definition layout (m : manager) (ix : indexes) (h : heap) : heap :=
  <[coupons m := OArr (ix_coupons ix)]>
    (<[couponCodes m := OArr (ix_couponCodes ix)]>
       (<[groupIds m := OArr (ix_groupIds ix)]> h)).

(** The locations three successive allocations return. *)
Definition fresh3 (h : heap) : manager :=
  let '(lg, h1) := alloc (OArr []) h in
  let '(lc, h2) := alloc (OArr []) h1 in
  let '(lk, _) := alloc (OArr []) h2 in
  Manager lg lc lk.

(** The caller's second normalisation of what [getAllGroupIds] returned
    ([extractedGroupIds] in the coupon suites). *)
Definition extractGroupId (h : heap) (groupObj : value) : result value :=
  if bool_decide (typeof groupObj = "object") then
    id ← get_prop h groupObj "_id";
    if truthy id then get_prop h groupObj "_id" else mret groupObj
  else mret groupObj.

(** The guard at the head of [processCouponsData], negated: the argument
    is an object whose [data] is an array. *)
Definition is_list_response (h : heap) (couponsResponse : value) : bool :=
  truthy couponsResponse &&
  truthy (get_own h couponsResponse "data") &&
  isArray h (get_own h couponsResponse "data").

Definition ix0 : indexes := Indexes [] [] [].

(** The states a manager goes through: built by the constructor, driven
    by its methods, while the rest of the program allocates and writes
    objects other than the three arrays, which no method hands out. *)
Inductive reachable : world -> Prop :=
  | reach_new h :
      reachable (new_TestDataManager h)
  | reach_processCouponsData arg w :
      reachable w -> reachable (processCouponsData arg w).2
  | reach_clear w :
      reachable w -> reachable (clear w).2
  | reach_spread f w :
      reachable w -> reachable (spread f w).2
  | reach_other w h' :
      reachable w ->
      h' !! groupIds (this w) = mem w !! groupIds (this w) ->
      h' !! couponCodes (this w) = mem w !! couponCodes (this w) ->
      h' !! coupons (this w) = mem w !! coupons (this w) ->
      reachable (World (this w) h').

(** The shapes of [coupon.group] the callback resolves to a scalar: a
    falsy value (skipped), a scalar, or an object with a truthy scalar
    [_id]. *)
Definition group_shape_ok (h : heap) (coupon : value) : bool :=
  let group := get_own h coupon "group" in
  negb (truthy group) || is_scalar group ||
  (bool_decide (typeof group = "object") &&
   truthy (get_own h group "_id") && is_scalar (get_own h group "_id")).

(** A list response as the coupon endpoint returns it:
    [{status: "OK", data: [c1, c2, c3, c4]}] with
    [c1 = {_id: "c1", group: {_id: "g1", name: "VIP"}, code: "AAA"}],
    [c2 = {_id: "c2", group: "g2", code: "AAA"}],
    [c3 = {_id: "c3", group: {_id: "g1", name: "VIP"}, code: "BBB"}]
    (the same group object as in [c1]) and [c4 = {_id: "c4", code: ""}]. *)
Definition sample_heap : heap :=
  list_to_map
    [(1%positive, OObj [("status", VStr "OK"); ("data", VRef 2)]);
     (2%positive, OArr [VRef 3; VRef 4; VRef 5; VRef 6]);
     (3%positive, OObj [("_id", VStr "c1"); ("group", VRef 7); ("code", VStr "AAA")]);
     (4%positive, OObj [("_id", VStr "c2"); ("group", VStr "g2"); ("code", VStr "AAA")]);
     (5%positive, OObj [("_id", VStr "c3"); ("group", VRef 7); ("code", VStr "BBB")]);
     (6%positive, OObj [("_id", VStr "c4"); ("code", VStr "")]);
     (7%positive, OObj [("_id", VStr "g1"); ("name", VStr "VIP")])].

Definition sample_response : value := VRef 1.

(** [{status: "OK", data: [{_id: "c1", group: {name: "VIP"}, code: "X"}]}]:
    the embedded group carries no [_id]. *)
Definition odd_heap : heap :=
  list_to_map
    [(1%positive, OObj [("status", VStr "OK"); ("data", VRef 2)]);
     (2%positive, OArr [VRef 3]);
     (3%positive, OObj [("_id", VStr "c1"); ("group", VRef 4); ("code", VStr "X")]);
     (4%positive, OObj [("name", VStr "VIP")])].

(** The three locations are new and pairwise distinct. *)
Record separate (m : manager) (h : heap) : Prop := Separate {
  sep_g : h !! groupIds m = None;
  sep_c : h !! couponCodes m = None;
  sep_k : h !! coupons m = None;
  sep_gc : groupIds m ≠ couponCodes m;
  sep_gk : groupIds m ≠ coupons m;
  sep_ck : couponCodes m ≠ coupons m
}.

(** What holds of every reachable state: the fields hold arrays, and
    the two indexes hold truthy values, once each. *)
Record inv (w : world) : Prop := Inv {
  inv_groupIds :
    exists gs, mem w !! groupIds (this w) = Some (OArr gs) ∧
               Forall (fun v => truthy v) gs ∧ NoDup gs;
  inv_couponCodes :
    exists cs, mem w !! couponCodes (this w) = Some (OArr cs) ∧
               Forall (fun v => truthy v) cs ∧ NoDup cs;
  inv_coupons :
    exists ks, mem w !! coupons (this w) = Some (OArr ks)
}.

(** The three copying accessors, each with the field it copies. *)
Inductive accessor_of : M value -> (manager -> loc) -> Prop :=
  | acc_groupIds : accessor_of getAllGroupIds groupIds
  | acc_couponCodes : accessor_of getAllCouponCodes couponCodes
  | acc_coupons : accessor_of getAllCoupons coupons.

(** The manager after the sample list response was ingested. *)
Definition sample_world : world :=
  (processCouponsData sample_response (new_TestDataManager sample_heap)).2.

End TestDataManager.

(* ===================================================================== *)
(** ** The test runner seen from a scenario                               *)
(* ===================================================================== *)

Module Playwright.

Inductive method : Type := GET | POST | DELETE.

Record http_request : Type := Request {
  req_method : method;
  req_url : string;
  req_headers : list (string * string);
  req_form : option (list (string * value))
}.

(** What the transport hands back: the status code and what
    [response.json()] gives, the decoded body or a thrown error. *)
Record http_response : Type := HttpResponse {
  resp_status : Z;
  resp_json : result value
}.

Section Session.

(** The remote service is a state machine of an unknown state type; a
    call answers with a response or throws (network failure). *)
Context {S : Type}.

Record session : Type := Session {
  remote : S;
  trace : list (http_request * result http_response);
  console : list string;
  ledger : list value
}.

Definition T (A : Type) : Type := session -> result A * session.

#[global] Instance T_ret : MRet T := fun A a st => (Ok a, st).

#[global] Instance T_bind : MBind T := fun A B f m st =>
  match m st with
  | (Ok a, st') => f a st'
  | (Throw e, st') => (Throw e, st')
  end.

Definition throw {A} (e : exn) : T A := fun st => (Throw e, st).

Definition lift {A} (r : result A) : T A := fun st => (r, st).

(** [try { body } catch (error) { handler }]. *)
Definition try_catch {A} (body : T A) (handler : exn -> T A) : T A := fun st =>
  match body st with
  | (Ok a, st') => (Ok a, st')
  | (Throw e, st') => handler e st'
  end.


Variable serve : http_request -> S -> result http_response * S.

(** One call of the transport, recorded in the trace. *)
Definition request (rq : http_request) : T http_response := fun st =>
  let '(r, s') := serve rq (remote st) in
  (r, Session s' (trace st ++ [(rq, r)]) (console st) (ledger st)).

Definition print (line : string) : T unit := fun st =>
  (Ok tt, Session (remote st) (trace st) (console st ++ [line]) (ledger st)).

(** [logger.info(message)] of a [Logger] built with [context]; the
    timestamp the logger prepends is left out. *)
Definition logger_info (context message : string) : T unit :=
  print ("[" ++ context ++ "] " ++ message).

(** [console.error(text, error)]. *)
Definition console_error (text : string) (error : exn) : T unit :=
  print (text ++ " " ++ message error).





(** *** [expect] matchers *)








End Session.

Arguments session S : clear implicits.
Arguments T S A : clear implicits.

End Playwright.

(* ===================================================================== *)
(** ** [test/utils/api-client.js]                                         *)
(* ===================================================================== *)

Module ApiClient.

Import Playwright.

(** [process.env]: a variable is a string or is not set. *)
Record env : Type := Env {
  API_BASE_URL : option string;
  API_TOKEN : option string
}.

Record client : Type := Client {
  baseUrl : string;
  token : string
}.

Definition new_ApiClient (e : env) : result client :=
  let baseUrl := default "" (API_BASE_URL e) in
  let token := default "" (API_TOKEN e) in
  if bool_decide (baseUrl = "") || bool_decide (token = "")
  then Throw (Error "Faltan variables de entorno API_BASE_URL o API_TOKEN")
  else Ok (Client baseUrl token).

(** *** [new URLSearchParams(params).toString()]

    The [application/x-www-form-urlencoded] serializer on the bytes of
    the UTF-8 encoding: letters, digits and [* - . _] stay, a space
    becomes [+], every other byte becomes [%XX]. *)

Definition unreserved (c : ascii) : bool :=
  let n := N_of_ascii c in
  ((48 <=? n) && (n <=? 57) || (65 <=? n) && (n <=? 90) || (97 <=? n) && (n <=? 122) ||
   (n =? 42) || (n =? 45) || (n =? 46) || (n =? 95))%N.

Definition hex_digit (n : N) : ascii :=
  default "0"%char (String.get (N.to_nat n) "0123456789ABCDEF").

Definition urlencode_byte (c : ascii) : string :=
  if (N_of_ascii c =? 32)%N then "+"
  else if unreserved c then String c ""
  else String "%" (String (hex_digit (N_of_ascii c / 16))
                          (String (hex_digit (N_of_ascii c mod 16)) "")).

Fixpoint urlencode (s : string) : string :=
  match s with
  | EmptyString => ""
  | String c s' => urlencode_byte c ++ urlencode s'
  end.

Definition encode_pair (h : heap) (kv : string * value) : string :=
  urlencode kv.1 ++ "=" ++ urlencode (ToString h kv.2).

Definition URLSearchParams_toString (h : heap) (params : list (string * value)) : string :=
  String.concat "&" (map (encode_pair h) params).

(** [params.k = v] on the own properties of [params]: an existing key
    keeps its place, a new one (not an array index) goes last. *)
Fixpoint set_prop (k : string) (v : value) (ps : list (string * value))
  : list (string * value) :=
  match ps with
  | [] => [(k, v)]
  | (k', v') :: ps' =>
      if bool_decide (k = k') then (k, v) :: ps' else (k', v') :: set_prop k v ps'
  end.

(** [_buildUrl].  The assignment to [params.token] also changes the
    caller's object; only the URL is returned here. *)
Definition _buildUrl (c : client) (h : heap) (endpoint : string)
    (params : list (string * value)) : string :=
  let params :=
    if negb (truthy (default VUndefined (assoc "token" params)))
    then set_prop "token" (VStr (token c)) params
    else params in
  let queryParams := URLSearchParams_toString h params in
  let separator := if str_includes endpoint "?" then "&" else "?" in
  baseUrl c ++ endpoint ++
  (if negb (bool_decide (queryParams = "")) then separator ++ queryParams else "").

(** The [{status, data}] every method returns. *)
Record response : Type := Response {
  status : Z;
  data : value
}.

Section Methods.

Context {S : Type}.
Variable serve : http_request -> S -> result http_response * S.
Variable h : heap.

Definition get (c : client) (endpoint : string) (params : list (string * value))
  : T S response :=
  let url := _buildUrl c h endpoint params in
  try_catch
    (resp ← request serve (Request GET url [("X-API-Token", token c)] None);
     data ← lift (resp_json resp);
     mret (Response (resp_status resp) data))
    (fun error =>
       console_error ("Error en GET " ++ endpoint ++ ":") error ;; throw error).

Definition post (c : client) (endpoint : string) (data : list (string * value))
  : T S response :=
  let url := _buildUrl c h endpoint [("token", VStr (token c))] in
  try_catch
    (resp ← request serve
              (Request POST url
                 [("X-API-Token", token c);
                  ("Content-Type", "application/x-www-form-urlencoded")]
                 (Some data));
     responseData ← lift (resp_json resp);
     mret (Response (resp_status resp) responseData))
    (fun error =>
       console_error ("Error en POST " ++ endpoint ++ ":") error ;; throw error).

Definition delete (c : client) (endpoint : string) : T S response :=
  let url := _buildUrl c h endpoint [("token", VStr (token c))] in
  try_catch
    (resp ← request serve (Request DELETE url [("X-API-Token", token c)] None);
     data ← lift (resp_json resp);
     mret (Response (resp_status resp) data))
    (fun error =>
       console_error ("Error en DELETE " ++ endpoint ++ ":") error ;; throw error).

End Methods.

(** The request each method sends, for stating what went over the wire. *)
Definition get_request (c : client) (h : heap) (endpoint : string)
    (params : list (string * value)) : http_request :=
  Request GET (_buildUrl c h endpoint params) [("X-API-Token", token c)] None.


Definition delete_request (c : client) (h : heap) (endpoint : string) : http_request :=
  Request DELETE (_buildUrl c h endpoint [("token", VStr (token c))])
    [("X-API-Token", token c)] None.

(** What a method makes of the transport's answer: [{status, data}], or
    the error of the transport or of the JSON decoder, thrown again. *)
Definition normalize (ans : result http_response) : result response :=
  match ans with
  | Ok resp =>
      match resp_json resp with
      | Ok d => Ok (Response (resp_status resp) d)
      | Throw err => Throw err
      end
  | Throw err => Throw err
  end.

Section AfterCall.

Context {S : Type}.
Variable serve : http_request -> S -> result http_response * S.

(** The session after a call that sent [rq] and got [ans]: the exchange
    is in the trace, and a failure left a line on the console. *)
Definition after_call (verb endpoint : string) (rq : http_request)
    (st : session S) : result response * session S :=
  let ans := (serve rq (remote st)).1 in
  (normalize ans,
   Session (serve rq (remote st)).2 (trace st ++ [(rq, ans)])
     (match normalize ans with
      | Ok _ => console st
      | Throw err =>
          console st ++ [(("Error en " ++ verb ++ " " ++ endpoint ++ ":") ++ " "
                          ++ message err)%string]
      end)
     (ledger st)).

End AfterCall.

End ApiClient.

(* ===================================================================== *)
(** ** [test/api/cupones/coupons-crud-negative-clean.spec.js]             *)
(* ===================================================================== *)

(** A scenario is a program of the runner's monad.  The calls of
    [logger.info] in the bodies of the tests only write fixed or
    interpolated text to the console and are left out; those of the
    cleanup loops are kept.  Decoded bodies live in one heap [h], which
    no scenario writes to. *)

Module CouponsNegative.

Import Playwright ApiClient.

Definition logger : string := "cupones-negative-tests".

(** The form payloads of the tests. *)






Section Suite.

Context {S : Type}.
Variable serve : http_request -> S -> result http_response * S.
Variable h : heap.
Variable e : env.

(** The [for (const couponId of testCouponsToCleanup)] loop of every
    [finally] block of the suite. *)
Fixpoint cleanup (apiClient : client) (ids : list value) : T S unit :=
  match ids with
  | [] => mret tt
  | couponId :: rest =>
      try_catch
        (_ ← delete serve h apiClient ("/api/coupon/" ++ ToString h couponId);
         logger_info logger ("🧹 Fixture eliminada: " ++ ToString h couponId))
        (fun error =>
           logger_info logger
             ("⚠️ Error limpiando fixture " ++ ToString h couponId ++ ": "
              ++ message error)) ;;
      cleanup apiClient rest
  end.

(** What the loop leaves on the console for one fixture, given the
    transport's answer to its DELETE. *)
Definition cleanup_report (apiClient : client) (couponId : value)
    (ans : result http_response) : list string :=
  match normalize ans with
  | Ok _ => [("[" ++ logger ++ "] " ++ "🧹 Fixture eliminada: " ++ ToString h couponId)%string]
  | Throw error =>
      [(("Error en DELETE " ++ ("/api/coupon/" ++ ToString h couponId) ++ ":") ++ " "
        ++ message error)%string;
       ("[" ++ logger ++ "] " ++ "⚠️ Error limpiando fixture " ++ ToString h couponId
        ++ ": " ++ message error)%string]
  end.

Definition cleanup_request (apiClient : client) (couponId : value) : http_request :=
  delete_request apiClient h ("/api/coupon/" ++ ToString h couponId).







Definition nonExistentId : string := "000000000000000000000000".


End Suite.

End CouponsNegative.

(* ===================================================================== *)
(** ** The category suite ([categoria-comprehensive-tests])               *)
(* ===================================================================== *)

Module CategoryComprehensive.

Import Playwright ApiClient.

Definition logger : string := "categoria-comprehensive-tests".

Section Suite.

Context {S : Type}.
Variable serve : http_request -> S -> result http_response * S.
Variable h : heap.
Variable e : env.

(** The loop of [test.afterAll] over [createdCategoryIds]. *)
Fixpoint cleanup (apiClient : client) (ids : list value) : T S unit :=
  match ids with
  | [] => mret tt
  | catId :: rest =>
      try_catch
        (deleteResponse ← delete serve h apiClient ("/api/category/" ++ ToString h catId);
         if bool_decide (status deleteResponse = 200) ||
            bool_decide (status deleteResponse = 204)
         then logger_info logger
                ("✅ Categoría " ++ ToString h catId ++ " eliminada correctamente")
         else logger_info logger
                ("⚠️ Error eliminando categoría " ++ ToString h catId ++ ": Status "
                 ++ pretty (status deleteResponse)))
        (fun error =>
           logger_info logger
             ("❌ Excepción eliminando categoría " ++ ToString h catId ++ ": "
              ++ message error)) ;;
      cleanup apiClient rest
  end.

Definition cleanup_report (apiClient : client) (catId : value)
    (ans : result http_response) : list string :=
  match normalize ans with
  | Ok deleteResponse =>
      if bool_decide (status deleteResponse = 200) ||
         bool_decide (status deleteResponse = 204)
      then [("[" ++ logger ++ "] " ++ "✅ Categoría " ++ ToString h catId
             ++ " eliminada correctamente")%string]
      else [("[" ++ logger ++ "] " ++ "⚠️ Error eliminando categoría " ++ ToString h catId
             ++ ": Status " ++ pretty (status deleteResponse))%string]
  | Throw error =>
      [(("Error en DELETE " ++ ("/api/category/" ++ ToString h catId) ++ ":") ++ " "
        ++ message error)%string;
       ("[" ++ logger ++ "] " ++ "❌ Excepción eliminando categoría " ++ ToString h catId
        ++ ": " ++ message error)%string]
  end.

Definition cleanup_request (apiClient : client) (catId : value) : http_request :=
  delete_request apiClient h ("/api/category/" ++ ToString h catId).


Definition nonExistentId : string := "000000000000000000000000".


End Suite.

End CategoryComprehensive.

(* ===================================================================== *)
(** ** A scripted remote service, for running the scenarios               *)
(* ===================================================================== *)

Module Scripted.

Import Playwright ApiClient.

(** The service answers the [n]-th call with the [n]-th entry of a
    script, and drops the connection once the script is over. *)
Definition serve (script : list (result http_response))
    (rq : http_request) (n : nat) : result http_response * nat :=
  (default (Throw (Error "socket hang up")) (script !! n), S n).

Definition start : session nat := Session 0%nat [] [] [].

Definition env0 : env := Env (Some "https://api.example.test") (Some "s3cr3t").

Definition client0 : client := Client "https://api.example.test" "s3cr3t".


Definition answer (code : Z) (body : positive) : result http_response :=
  Ok (HttpResponse code (Ok (VRef body))).

End Scripted.

(* ===================================================================== *)
(** ** The suites' use of the manager                                     *)
(* ===================================================================== *)

Module ManagerUse.

Import TestDataManager.

(** [rawGroupIds.map((groupObj) => ...)] of the [beforeAll] hooks: the
    callback is [extractGroupId], applied from left to right. *)
Fixpoint extractGroupIds (h : heap) (rawGroupIds : list value) : result (list value) :=
  match rawGroupIds with
  | [] => Ok []
  | groupObj :: rest =>
      id ← extractGroupId h groupObj;
      ids ← extractGroupIds h rest;
      mret (id :: ids)
  end.

(** [{status: "OK", data: [c1, null, c2]}]: the second element of the
    list is [null]. *)
Definition holed_heap : heap :=
  list_to_map
    [(1%positive, OObj [("status", VStr "OK"); ("data", VRef 2)]);
     (2%positive, OArr [VRef 3; VNull; VRef 4]);
     (3%positive, OObj [("_id", VStr "c1"); ("group", VStr "g1"); ("code", VStr "AAA")]);
     (4%positive, OObj [("_id", VStr "c2"); ("group", VStr "g2"); ("code", VStr "BBB")])].

(** Neither index is longer than the list of coupons. *)
Definition counts_ok (w : world) : Prop :=
  (length (contents groupIds w) <= length (contents coupons w))%nat ∧
  (length (contents couponCodes w) <= length (contents coupons w))%nat.

(** The manager after the list with the [null] element was ingested
    (the call threw). *)
Definition holed_world : world :=
  (processCouponsData (VRef 1) (new_TestDataManager holed_heap)).2.

(** The word the [TypeError] uses for the value it could not read. *)
Definition typeof_nullish (v : value) : string :=
  match v with
  | VNull => "null"
  | _ => "undefined"
  end.

End ManagerUse.

(* ===================================================================== *)
(** ** Counting the separators of a URL                                   *)
(* ===================================================================== *)

Module UrlShape.

(** How many times the character [c] occurs in [s]. *)
Fixpoint count_char (c : ascii) (s : string) : nat :=
  match s with
  | EmptyString => 0%nat
  | String x s' => ((if bool_decide (x = c) then 1 else 0) + count_char c s')%nat
  end.

(** The three characters that structure a query string. *)
Definition structural (c : ascii) : Prop :=
  c = "?"%char ∨ c = "&"%char ∨ c = "="%char.

End UrlShape.

(* ===================================================================== *)
(** ** The rest of [coupons-crud-negative-clean.spec.js]                  *)
(* ===================================================================== *)

Module CouponsNegativeMore.

Import TestDataManager ManagerUse Playwright ApiClient.

(** What [logNegativeResponseDetails] returns. *)
Record details : Type := Details {
  actualStatus : Z;
  actualDataStatus : value
}.

(** The second argument of [logNegativeResponseDetails]: one status, or
    an array literal of statuses. *)
Inductive expected : Type :=
  | Exactly (s : Z)
  | OneOf (ss : list Z).

(** [actualStatus !== expectedStatus]: a number is never identical to an
    array. *)
Definition differs (actualStatus : Z) (expectedStatus : expected) : bool :=
  match expectedStatus with
  | Exactly s => negb (bool_decide (actualStatus = s))
  | OneOf _ => true
  end.

(** [`${expectedStatus}`]: an array is joined with commas. *)
Definition show_expected (expectedStatus : expected) : string :=
  match expectedStatus with
  | Exactly s => pretty s
  | OneOf ss => String.concat "," (map pretty ss)
  end.

(** What [beforeAll] leaves in the variables of the suite. *)
Record suite : Type := Suite {
  extractedGroupIds : list value;
  existingCouponCodes : list value;
  testDataManager : world
}.





Section Suite.

Context {S : Type}.
Variable serve : http_request -> S -> result http_response * S.
Variable h : heap.
Variable e : env.

(** [v?.k]. *)
Definition optional_get (v : value) (k : string) : value :=
  match v with
  | VUndefined | VNull => VUndefined
  | _ => get_own h v k
  end.

(** [logNegativeResponseDetails(response, expectedStatus,
    expectedDataStatus, testName)]. *)
Definition logNegativeResponseDetails (response : response) (expectedStatus : expected)
    (expectedDataStatus : string) (testName : string) : T S details :=
  let actualStatus := status response in
  let actualDataStatus :=
    let s := optional_get (data response) "status" in
    if truthy s then s else VStr "N/A" in
  logger_info CouponsNegative.logger
    ("🔍 " ++ testName ++ " - Status HTTP: " ++ pretty actualStatus
     ++ ", Data Status: " ++ ToString h actualDataStatus) ;;
  (if differs actualStatus expectedStatus
   then logger_info CouponsNegative.logger
          ("⚠️ Status inesperado: Esperaba " ++ show_expected expectedStatus
           ++ ", recibió " ++ pretty actualStatus)
   else mret tt) ;;
  (if negb (bool_decide (actualDataStatus = VStr expectedDataStatus)) &&
      negb (bool_decide (expectedDataStatus = "N/A"))
   then logger_info CouponsNegative.logger
          ("⚠️ Data Status inesperado: Esperaba '" ++ expectedDataStatus
           ++ "', recibió '" ++ ToString h actualDataStatus ++ "'")
   else mret tt) ;;
  (if truthy (optional_get (data response) "data")
   then message ← lift (get_prop h (data response) "data");
        logger_info CouponsNegative.logger
          ("📝 Mensaje de error: " ++ ToString h message)
   else mret tt) ;;
  mret (Details actualStatus actualDataStatus).

(** The later tests of the suite, with their call of
    [logNegativeResponseDetails]; the other [logger.info] calls of the
    bodies print fixed or interpolated text and are left out. *)





(** [test.beforeAll]: the suite's manager is the one built when the file
    is loaded; its arrays live in the heap next to the decoded bodies. *)
Definition beforeAll : T S suite :=
  let testDataManager := new_TestDataManager h in
  apiClient ← lift (new_ApiClient e);
  response ← get serve h apiClient "/api/coupon" [("limit", VNum 50); ("offset", VNum 0)];
  listed ←
    (if bool_decide (status response = 200)
     then domainStatus ← lift (get_prop h (data response) "status");
          mret (bool_decide (domainStatus = VStr "OK"))
     else mret false);
  if listed : bool then
    let ingested := processCouponsData (data response) testDataManager in
    lift ingested.1 ;;
    let copied := getAllGroupIds ingested.2 in
    rawGroupIds ← lift copied.1;
    extracted ← lift (extractGroupIds (mem copied.2) (elements (mem copied.2) rawGroupIds));
    let codes := getAllCouponCodes copied.2 in
    existing ← lift codes.1;
    mret (Suite extracted (elements (mem codes.2) existing) codes.2)
  else
    mret (Suite [] [] testDataManager).

(** A statement that sends requests at most: it leaves the list of
    fixtures alone and only adds to the record of requests. *)
Definition quiet {A} (m : T S A) : Prop :=
  forall st, ledger (m st).2 = ledger st ∧ exists rest, trace (m st).2 = trace st ++ rest.

End Suite.


End CouponsNegativeMore.

(* ===================================================================== *)
(** * Properties                                                          *)
(* ===================================================================== *)

Module JSFacts.

(** The fuel [ToString] starts with is never used up: the arrays entered
    are pairwise distinct locations of the heap. *)
Lemma to_string_fuel_enough (h : heap) : forall fuel1 fuel2 seen v,
  NoDup seen -> (forall l, l ∈ seen -> is_Some (h !! l)) ->
  (size h < fuel1 + length seen)%nat ->
  (size h < fuel2 + length seen)%nat ->
  to_string_fuel fuel1 h seen v = to_string_fuel fuel2 h seen v.
Proof.
  assert (Hbound : forall seen : list loc,
            NoDup seen -> (forall l, l ∈ seen -> is_Some (h !! l)) ->
            (length seen <= size h)%nat).
  { intros seen Hnd Hin.
    rewrite <- (size_dom (D := gset loc) h), <- (size_list_to_set (C := gset loc) seen Hnd).
    apply subseteq_size. intros l Hl%elem_of_list_to_set. by apply elem_of_dom, Hin. }
  induction fuel1 as [|f1 IH]; intros fuel2 seen v Hnd Hin H1 H2.
  { pose proof (Hbound seen Hnd Hin). lia. }
  destruct fuel2 as [|f2]; [pose proof (Hbound seen Hnd Hin); lia|].
  destruct v as [| | | | |l]; try reflexivity. simpl.
  destruct (h !! l) as [[ps|es]|] eqn:Hl; try reflexivity.
  case_bool_decide as Hseen; [reflexivity|].
  f_equal. apply map_ext. intros x.
  assert (Hrec : to_string_fuel f1 h (l :: seen) x = to_string_fuel f2 h (l :: seen) x).
  { apply IH.
    - by constructor.
    - intros l' [->|Hl']%elem_of_cons; [by rewrite Hl | by apply Hin].
    - simpl. lia.
    - simpl. lia. }
  by destruct x.
Qed.

Lemma ToString_fuel (h : heap) (fuel : nat) (v : value) :
  (size h < fuel)%nat -> to_string_fuel fuel h [] v = ToString h v.
Proof.
  intros Hf. unfold ToString.
  apply to_string_fuel_enough; simpl; try lia; [constructor|].
  by intros l Hl%elem_of_nil.
Qed.

End JSFacts.

Module TestDataManagerFacts.

Import TestDataManager.

(** *** Allocation and the three arrays of a manager *)

Lemma alloc_spec (o : object) (h : heap) :
  h !! (alloc o h).1 = None ∧ (alloc o h).2 = <[(alloc o h).1 := o]> h.
Proof.
  unfold alloc; simpl. split; [|done].
  apply not_elem_of_dom, is_fresh.
Qed.

Lemma fresh3_separate (h : heap) : separate (fresh3 h) h.
Proof.
  unfold fresh3, alloc; simpl.
  set (lg := fresh (dom h)).
  set (h1 := <[lg := OArr []]> h).
  set (lc := fresh (dom h1)).
  set (h2 := <[lc := OArr []]> h1).
  set (lk := fresh (dom h2)).
  assert (Hg : h !! lg = None) by apply not_elem_of_dom, is_fresh.
  assert (Hc : h1 !! lc = None) by apply not_elem_of_dom, is_fresh.
  assert (Hk : h2 !! lk = None) by apply not_elem_of_dom, is_fresh.
  apply lookup_insert_None in Hc as [Hc Hgc].
  apply lookup_insert_None in Hk as [Hk Hck].
  apply lookup_insert_None in Hk as [Hk Hgk].
  by constructor.
Qed.

Lemma layout_groupIds m ix h :
  separate m h -> layout m ix h !! groupIds m = Some (OArr (ix_groupIds ix)).
Proof.
  intros []. unfold layout.
  rewrite lookup_insert_ne by done. rewrite lookup_insert_ne by done.
  apply lookup_insert_eq.
Qed.

Lemma layout_couponCodes m ix h :
  separate m h -> layout m ix h !! couponCodes m = Some (OArr (ix_couponCodes ix)).
Proof.
  intros []. unfold layout.
  rewrite lookup_insert_ne by done. apply lookup_insert_eq.
Qed.

Lemma layout_coupons m ix h :
  layout m ix h !! coupons m = Some (OArr (ix_coupons ix)).
Proof. unfold layout. apply lookup_insert_eq. Qed.

Lemma layout_old m ix h l :
  is_Some (h !! l) -> separate m h -> layout m ix h !! l = h !! l.
Proof.
  intros [o Ho] []. unfold layout.
  rewrite !lookup_insert_ne; [done | congruence..].
Qed.

(** Reading a property sees the heap from before the call: the new
    locations hold arrays, which answer [undefined] as an unused location
    does. *)
Lemma get_own_layout m ix h v k :
  separate m h -> get_own (layout m ix h) v k = get_own h v k.
Proof.
  intros Hs. destruct v as [| | | | |l]; try done. simpl.
  destruct (decide (l = coupons m)) as [->|Hk].
  { rewrite layout_coupons. by rewrite (sep_k _ _ Hs). }
  destruct (decide (l = couponCodes m)) as [->|Hc].
  { rewrite layout_couponCodes by done. by rewrite (sep_c _ _ Hs). }
  destruct (decide (l = groupIds m)) as [->|Hg].
  { rewrite layout_groupIds by done. by rewrite (sep_g _ _ Hs). }
  unfold layout. by rewrite !lookup_insert_ne by done.
Qed.

Lemma get_prop_layout m ix h v k :
  separate m h -> get_prop (layout m ix h) v k = get_prop h v k.
Proof.
  intros Hs. destruct v; simpl; try done.
  f_equal. by apply (get_own_layout m ix h (VRef l) k).
Qed.

Lemma push_layout_groupIds m ix h v :
  separate m h ->
  push_heap (groupIds m) v (layout m ix h) =
  layout m (Indexes (ix_groupIds ix ++ [v]) (ix_couponCodes ix) (ix_coupons ix)) h.
Proof.
  intros Hs. unfold push_heap. rewrite layout_groupIds by done.
  destruct Hs. unfold layout; simpl.
  rewrite (insert_insert_ne _ (groupIds m) (coupons m)) by done.
  rewrite (insert_insert_ne _ (groupIds m) (couponCodes m)) by done.
  by rewrite insert_insert_eq.
Qed.

Lemma push_layout_couponCodes m ix h v :
  separate m h ->
  push_heap (couponCodes m) v (layout m ix h) =
  layout m (Indexes (ix_groupIds ix) (ix_couponCodes ix ++ [v]) (ix_coupons ix)) h.
Proof.
  intros Hs. unfold push_heap. rewrite layout_couponCodes by done.
  destruct Hs. unfold layout; simpl.
  rewrite (insert_insert_ne _ (couponCodes m) (coupons m)) by done.
  by rewrite insert_insert_eq.
Qed.

Lemma push_layout_coupons m ix h v :
  push_heap (coupons m) v (layout m ix h) =
  layout m (Indexes (ix_groupIds ix) (ix_couponCodes ix) (ix_coupons ix ++ [v])) h.
Proof.
  unfold push_heap. rewrite layout_coupons.
  unfold layout; simpl. by rewrite insert_insert_eq.
Qed.

(** *** The callback and the loop, replayed on lists *)

Lemma contents_layout_groupIds m ix h :
  separate m h -> contents groupIds (World m (layout m ix h)) = ix_groupIds ix.
Proof. intros Hs. unfold contents; simpl. by rewrite layout_groupIds. Qed.

Lemma contents_layout_couponCodes m ix h :
  separate m h -> contents couponCodes (World m (layout m ix h)) = ix_couponCodes ix.
Proof. intros Hs. unfold contents; simpl. by rewrite layout_couponCodes. Qed.

Lemma contents_layout_coupons m ix h :
  contents coupons (World m (layout m ix h)) = ix_coupons ix.
Proof. unfold contents; simpl. by rewrite layout_coupons. Qed.

Lemma scanCoupon_layout m ix h c :
  separate m h ->
  scanCoupon c (World m (layout m ix h)) =
  match get_prop h c "group" with
  | Throw e =>
      (Throw e,
       World m (layout m (Indexes (ix_groupIds ix) (ix_couponCodes ix)
                                  (ix_coupons ix ++ [c])) h))
  | Ok _ =>
      (Ok tt,
       World m (layout m (Indexes (add_new (ix_groupIds ix) (resolveGroup h c))
                                  (add_new (ix_couponCodes ix) (codeOf h c))
                                  (ix_coupons ix ++ [c])) h))
  end.
Proof.
  intros Hs.
  unfold scanCoupon, mbind, M_bind, mret, M_ret, push, lift, includes, read; simpl.
  rewrite push_layout_coupons, !get_prop_layout by done.
  destruct (get_prop h c "group") as [group|e] eqn:Hgroup; [|done].
  assert (Hg : group = get_own h c "group").
  { destruct c; simpl in *; congruence. }
  assert (Hcode : forall ix', get_prop (layout m ix' h) c "code" = Ok (codeOf h c)).
  { intros ix'. rewrite get_prop_layout by done.
    destruct c; simpl in Hgroup; try discriminate; done. }
  set (ix1 := Indexes (ix_groupIds ix) (ix_couponCodes ix) (ix_coupons ix ++ [c])).
  assert (Hfin : forall gs,
    (let w' := World m (layout m (Indexes gs (ix_couponCodes ix) (ix_coupons ix ++ [c])) h) in
     match get_prop (mem w') c "code" with
     | Ok a0 =>
         (if truthy a0 && negb (bool_decide (a0 ∈ contents couponCodes w'))
          then fun w : world =>
                 (Ok (), World (this w) (push_heap (couponCodes (this w)) a0 (mem w)))
          else fun w : world => (Ok (), w)) w'
     | Throw e => (Throw e, w')
     end) =
    (Ok (), World m (layout m (Indexes gs (add_new (ix_couponCodes ix) (codeOf h c))
                                       (ix_coupons ix ++ [c])) h))).
  { intros gs; simpl. rewrite Hcode.
    rewrite contents_layout_couponCodes by done; simpl.
    unfold add_new.
    destruct (truthy (codeOf h c) && negb (bool_decide (codeOf h c ∈ ix_couponCodes ix)));
      [|done].
    simpl. by rewrite push_layout_couponCodes. }
  unfold resolveGroup. rewrite <- Hg.
  destruct (truthy group) eqn:Ht; [|apply (Hfin (ix_groupIds ix))].
  case_bool_decide as Hobj; simpl.
  - rewrite get_prop_layout by done.
    assert (Hid : get_prop h group "_id" = Ok (get_own h group "_id")).
    { destruct group; simpl in *; try discriminate; done. }
    rewrite Hid.
    destruct (truthy (get_own h group "_id")) eqn:Hidt.
    + cbn [mem this]. rewrite get_prop_layout, Hid by done.
      rewrite contents_layout_groupIds by done; simpl.
      unfold add_new at 1. rewrite Hidt; simpl.
      destruct (bool_decide (get_own h group "_id" ∈ ix_groupIds ix)); simpl.
      * apply (Hfin (ix_groupIds ix)).
      * rewrite push_layout_groupIds by done. apply Hfin.
    + rewrite contents_layout_groupIds by done; simpl.
      unfold add_new at 1. rewrite Ht; simpl.
      destruct (bool_decide (group ∈ ix_groupIds ix)); simpl.
      * apply (Hfin (ix_groupIds ix)).
      * rewrite push_layout_groupIds by done. apply Hfin.
  - rewrite contents_layout_groupIds by done; simpl.
    unfold add_new at 1. rewrite Ht; simpl.
    destruct (bool_decide (group ∈ ix_groupIds ix)); simpl.
    + apply (Hfin (ix_groupIds ix)).
    + rewrite push_layout_groupIds by done. apply Hfin.
Qed.

Lemma forEach_scanCoupon cs : forall m ix h,
  separate m h ->
  forEach scanCoupon cs (World m (layout m ix h)) =
  ((scan h cs ix).1, World m (layout m (scan h cs ix).2 h)).
Proof.
  induction cs as [|c cs IH]; intros m ix h Hs; simpl.
  - by destruct ix.
  - unfold mbind, M_bind. rewrite scanCoupon_layout by done.
    destruct (get_prop h c "group"); [|done].
    by rewrite IH.
Qed.


(** *** [processCouponsData] as a whole *)

Lemma layout_ix0 h :
  layout (fresh3 h) ix0 h = (new_TestDataManager h).(mem) ∧
  fresh3 h = (new_TestDataManager h).(this).
Proof. done. Qed.

Lemma processCouponsData_noop arg w :
  truthy arg = false ∨
  truthy (get_own (mem w) arg "data") = false ∨
  isArray (mem w) (get_own (mem w) arg "data") = false ->
  processCouponsData arg w = (Ok tt, w).
Proof.
  intros H. unfold processCouponsData.
  destruct (truthy arg) eqn:Ha; simpl; [|done].
  destruct H as [H|H]; [done|].
  unfold mbind, M_bind, lift, read; simpl.
  assert (Hd : get_prop (mem w) arg "data" = Ok (get_own (mem w) arg "data")).
  { destruct arg; simpl in *; try discriminate; done. }
  rewrite Hd.
  destruct (truthy (get_own (mem w) arg "data")) eqn:Ht; simpl; [|done].
  destruct H as [H|H]; [done|]. by rewrite H.
Qed.

Lemma processCouponsData_array arg m h :
  truthy arg = true ->
  isArray h (get_own h arg "data") = true ->
  let cs := elements h (get_own h arg "data") in
  processCouponsData arg (World m h) =
  ((scan h cs ix0).1, World (fresh3 h) (layout (fresh3 h) (scan h cs ix0).2 h)).
Proof.
  intros Ha Harr cs. unfold processCouponsData. rewrite Ha; simpl.
  unfold mbind at 1, M_bind at 1, lift at 1; simpl.
  assert (Hd : get_prop h arg "data" = Ok (get_own h arg "data")).
  { destruct arg; simpl in *; try discriminate; done. }
  rewrite Hd.
  assert (Ht : truthy (get_own h arg "data") = true).
  { destruct (get_own h arg "data"); simpl in *; try discriminate; done. }
  rewrite Ht; simpl.
  unfold mbind at 1, M_bind at 1, read at 1; simpl. rewrite Harr; simpl.
  unfold mbind at 1, M_bind at 1, read at 1; simpl. fold cs.
  pose proof (fresh3_separate h) as Hs.
  pose proof (forEach_scanCoupon cs (fresh3 h) ix0 h Hs) as Hloop.
  unfold mbind, M_bind, new_array, set_groupIds, set_couponCodes, set_coupons; simpl.
  exact Hloop.
Qed.

(** *** The lists [scan] builds *)

Lemma scan_coupons h cs : forall ix,
  ix_coupons (scan h cs ix).2 = ix_coupons ix ++ take (S (length (scanned cs))) cs.
Proof.
  induction cs as [|c cs IH]; intros ix; simpl.
  - by rewrite app_nil_r.
  - destruct c; simpl; try (rewrite IH; simpl; by rewrite <- app_assoc).
    + by rewrite take_0.
    + by rewrite take_0.
Qed.

Lemma scan_outcome h cs : forall ix,
  (scan h cs ix).1 = Ok tt <-> scanned cs = cs.
Proof.
  induction cs as [|c cs IH]; intros ix; simpl; [done|].
  destruct c; simpl; try (rewrite IH; split; congruence); split; discriminate.
Qed.

Lemma scan_outcome_indep h1 h2 cs : forall ix1 ix2,
  (scan h1 cs ix1).1 = (scan h2 cs ix2).1.
Proof.
  induction cs as [|c cs IH]; intros ix1 ix2; simpl; [done|].
  destruct c; simpl; try done; apply IH.
Qed.

Lemma scan_groupIds h cs : forall ix,
  ix_groupIds (scan h cs ix).2 =
  fold_left add_new (map (resolveGroup h) (scanned cs)) (ix_groupIds ix).
Proof.
  induction cs as [|c cs IH]; intros ix; simpl; [done|].
  destruct c; simpl; try done; by rewrite IH.
Qed.

Lemma scan_couponCodes h cs : forall ix,
  ix_couponCodes (scan h cs ix).2 =
  fold_left add_new (map (codeOf h) (scanned cs)) (ix_couponCodes ix).
Proof.
  induction cs as [|c cs IH]; intros ix; simpl; [done|].
  destruct c; simpl; try done; by rewrite IH.
Qed.

(** *** First occurrences *)

Lemma elem_of_dedup_first l x : x ∈ dedup_first l <-> x ∈ l.
Proof.
  induction l as [|a l IH]; simpl; [done|].
  rewrite !elem_of_cons, list_elem_of_filter, IH.
  destruct (decide (x = a)); intuition congruence.
Qed.

Lemma NoDup_dedup_first l : NoDup (dedup_first l).
Proof.
  induction l as [|a l IH]; simpl; [constructor|].
  constructor; [|by apply NoDup_filter].
  rewrite list_elem_of_filter. intuition congruence.
Qed.

Lemma dedup_first_snoc l x :
  dedup_first (l ++ [x]) =
  if bool_decide (x ∈ l) then dedup_first l else dedup_first l ++ [x].
Proof.
  induction l as [|a l IH]; simpl; [done|].
  rewrite IH.
  destruct (decide (x = a)) as [->|Hne].
  - rewrite (bool_decide_eq_true_2 (a ∈ a :: l)) by left.
    case_bool_decide; [done|].
    rewrite filter_app, filter_cons_False, filter_nil, app_nil_r; [done|].
    intuition congruence.
  - case_bool_decide as Hin.
    + by rewrite bool_decide_eq_true_2 by by right.
    + rewrite bool_decide_eq_false_2.
      * rewrite filter_app, filter_cons_True, filter_nil; done.
      * rewrite elem_of_cons. intuition congruence.
Qed.

Lemma fold_add_new_snoc l x acc :
  fold_left add_new (l ++ [x]) acc = add_new (fold_left add_new l acc) x.
Proof. by rewrite fold_left_app. Qed.

Lemma fold_add_new_dedup l :
  fold_left add_new l [] = dedup_first (filter (fun v => truthy v) l).
Proof.
  induction l as [|x l IH] using rev_ind; [done|].
  rewrite fold_add_new_snoc, IH, filter_app. unfold add_new.
  destruct (truthy x) eqn:Ht; simpl.
  - rewrite filter_cons_True, filter_nil by by rewrite Ht.
    rewrite dedup_first_snoc.
    case_bool_decide as Hin.
    + rewrite bool_decide_eq_true_2; [done|]. by apply elem_of_dedup_first.
    + rewrite bool_decide_eq_false_2; [done|]. by rewrite elem_of_dedup_first in Hin.
  - rewrite filter_cons_False, filter_nil, app_nil_r; [done|].
    rewrite Ht; simpl; tauto.
Qed.

(** The entry at any position of [dedup_first l] is the first new value
    met after the entries before it. *)
Lemma dedup_first_order l : forall r1 y r2,
  dedup_first l = r1 ++ y :: r2 ->
  exists l1 l2, l = l1 ++ y :: l2 ∧ (y ∉ l1) ∧ r1 = dedup_first l1.
Proof.
  induction l as [|x l IH] using rev_ind; intros r1 y r2 H.
  - by destruct r1.
  - rewrite dedup_first_snoc in H. case_bool_decide as Hin.
    + destruct (IH _ _ _ H) as (l1 & l2 & -> & Hy & ->).
      exists l1, (l2 ++ [x]). by rewrite <- app_assoc.
    + destruct r2 as [|z r2 _] using rev_ind.
      * apply app_inj_tail in H as [<- <-].
        exists l, []. by rewrite <- elem_of_dedup_first in Hin |- *.
      * rewrite app_comm_cons, app_assoc in H.
        apply app_inj_tail in H as [H <-].
        destruct (IH _ _ _ H) as (l1 & l2 & -> & Hy & ->).
        exists l1, (l2 ++ [x]). by rewrite <- app_assoc.
Qed.

(** *** Ingestion: no-op or replacement *)

Lemma is_list_response_true h arg :
  is_list_response h arg = true <->
  truthy arg = true ∧ isArray h (get_own h arg "data") = true.
Proof.
  unfold is_list_response. rewrite !andb_true_iff.
  split; [tauto|]. intros [Ha Harr]. repeat split; try done.
  destruct (get_own h arg "data"); simpl in *; try discriminate; done.
Qed.

Lemma process_contents arg m h :
  is_list_response h arg = true ->
  let cs := elements h (get_own h arg "data") in
  let w' := (processCouponsData arg (World m h)).2 in
  contents groupIds w' = ix_groupIds (scan h cs ix0).2 ∧
  contents couponCodes w' = ix_couponCodes (scan h cs ix0).2 ∧
  contents coupons w' = ix_coupons (scan h cs ix0).2.
Proof.
  intros [Ha Harr]%is_list_response_true cs w'. subst w'.
  rewrite processCouponsData_array by done. simpl. fold cs.
  pose proof (fresh3_separate h) as Hs.
  rewrite contents_layout_groupIds, contents_layout_couponCodes,
    contents_layout_coupons by done.
  done.
Qed.

(** C5. A call whose argument is absent, has no [data], or has a [data]
    that is not an array changes nothing; a call with an array [data]
    starts from empty indexes, so that what the manager holds afterwards
    is the same for any two prior states given the same scanned list,
    and it writes to new arrays only: every object of the prior heap,
    the scanned array among them, is as it was. *)
Theorem processCouponsData_noop_or_replaces (arg1 arg2 : value) (w1 w2 : world) :
  (arg1 = VUndefined ∨
   get_own (mem w1) arg1 "data" = VUndefined ∨
   isArray (mem w1) (get_own (mem w1) arg1 "data") = false ->
   processCouponsData arg1 w1 = (Ok tt, w1)) ∧
  (is_list_response (mem w1) arg1 = true ->
   is_list_response (mem w2) arg2 = true ->
   let cs1 := elements (mem w1) (get_own (mem w1) arg1 "data") in
   let cs2 := elements (mem w2) (get_own (mem w2) arg2 "data") in
   cs1 = cs2 ->
   (forall c, c ∈ cs1 ->
      resolveGroup (mem w1) c = resolveGroup (mem w2) c ∧
      codeOf (mem w1) c = codeOf (mem w2) c) ->
   let r1 := processCouponsData arg1 w1 in
   let r2 := processCouponsData arg2 w2 in
   r1.1 = r2.1 ∧
   contents groupIds r1.2 = contents groupIds r2.2 ∧
   contents couponCodes r1.2 = contents couponCodes r2.2 ∧
   contents coupons r1.2 = contents coupons r2.2 ∧
   contents coupons r1.2 = take (S (length (scanned cs1))) cs1 ∧
   (forall l, is_Some (mem w1 !! l) -> mem r1.2 !! l = mem w1 !! l)).
Proof.
  split.
  - intros H. apply processCouponsData_noop.
    destruct H as [->|[H|H]]; [by left | right; left; by rewrite H | by right; right].
  - intros H1 H2 cs1 cs2 Hcs Hview r1 r2. subst r1 r2.
    destruct w1 as [m1 h1], w2 as [m2 h2]; simpl in *.
    destruct (process_contents arg1 m1 h1 H1) as (Eg1 & Ec1 & Ek1).
    destruct (process_contents arg2 m2 h2 H2) as (Eg2 & Ec2 & Ek2).
    rewrite Eg1, Ec1, Ek1, Eg2, Ec2, Ek2.
    apply is_list_response_true in H1 as [Ha1 Harr1].
    apply is_list_response_true in H2 as [Ha2 Harr2].
    rewrite !processCouponsData_array by done. simpl.
    fold cs1 cs2. rewrite <- Hcs.
    rewrite !scan_groupIds, !scan_couponCodes, !scan_coupons; simpl.
    assert (Hsub : forall c, c ∈ scanned cs1 -> c ∈ cs1).
    { clear. induction cs1 as [|a l IH]; simpl; [done|].
      intros c. destruct (nullish a); [by intros ?%elem_of_nil|].
      rewrite !elem_of_cons. intros [->|H]; [by left|right; by apply IH]. }
    assert (Hmg : map (resolveGroup h1) (scanned cs1) = map (resolveGroup h2) (scanned cs1)).
    { apply map_ext_in. intros c Hc%list_elem_of_In. by apply Hview, Hsub. }
    assert (Hmc : map (codeOf h1) (scanned cs1) = map (codeOf h2) (scanned cs1)).
    { apply map_ext_in. intros c Hc%list_elem_of_In. by apply Hview, Hsub. }
    rewrite Hmg, Hmc. repeat split; try done.
    + apply scan_outcome_indep.
    + intros l Hl. apply layout_old; [done | apply fresh3_separate].
Qed.

(** *** The two indexes after ingestion *)

Lemma filter_split_inv (P : value -> Prop) `{!forall x, Decision (P x)} l :
  forall f1 y f2,
  filter P l = f1 ++ y :: f2 ->
  exists l1 l2, l = l1 ++ y :: l2 ∧ filter P l1 = f1 ∧ filter P l2 = f2.
Proof.
  induction l as [|a l IH]; intros f1 y f2 Hf.
  - by destruct f1.
  - destruct (decide (P a)) as [Ha|Ha].
    + rewrite filter_cons_True in Hf by done.
      destruct f1 as [|b f1]; simpl in Hf.
      * injection Hf as E1 E2. subst. exists [], l. by rewrite filter_nil.
      * injection Hf as E1 E2. subst b.
        destruct (IH _ _ _ E2) as (l1 & l2 & -> & <- & <-).
        exists (a :: l1), l2. by rewrite filter_cons_True.
    + rewrite filter_cons_False in Hf by done.
      destruct (IH _ _ _ Hf) as (l1 & l2 & -> & <- & <-).
      exists (a :: l1), l2. by rewrite filter_cons_False.
Qed.

Lemma dedup_filter_props (l : list value) :
  let ix := dedup_first (filter (fun v => truthy v) l) in
  NoDup ix ∧
  Forall (fun v => truthy v) ix ∧
  (forall x, x ∈ ix <-> x ∈ l ∧ truthy x) ∧
  (forall r1 y r2, ix = r1 ++ y :: r2 ->
     exists l1 l2, l = l1 ++ y :: l2 ∧ (y ∉ l1) ∧ forall x, x ∈ r1 -> x ∈ l1).
Proof.
  intros ix. subst ix. split; [apply NoDup_dedup_first|].
  assert (Hin : forall x, x ∈ dedup_first (filter (fun v => truthy v) l) <->
                          x ∈ l ∧ truthy x).
  { intros x. by rewrite elem_of_dedup_first, list_elem_of_filter, (comm and). }
  split; [|split; [exact Hin|]].
  - apply Forall_forall. intros x Hx. by apply Hin in Hx as [_ ?].
  - intros r1 y r2 H.
    assert (Hy : truthy y).
    { apply (Hin y). rewrite H. apply elem_of_app. right. by left. }
    destruct (dedup_first_order _ _ _ _ H) as (f1 & f2 & Hf & Hnin & ->).
    destruct (filter_split_inv _ _ _ _ _ Hf) as (l1 & l2 & -> & <- & <-).
    exists l1, l2. split; [done|]. split.
    + intros Hl. apply Hnin. by apply list_elem_of_filter.
    + intros x Hx%elem_of_dedup_first%list_elem_of_filter. tauto.
Qed.

Lemma process_indexes arg m h :
  is_list_response h arg = true ->
  let cs := scanned (elements h (get_own h arg "data")) in
  let w' := (processCouponsData arg (World m h)).2 in
  contents groupIds w' =
    dedup_first (filter (fun v => truthy v) (map (resolveGroup h) cs)) ∧
  contents couponCodes w' =
    dedup_first (filter (fun v => truthy v) (map (codeOf h) cs)).
Proof.
  intros H cs w'.
  destruct (process_contents arg m h H) as (Eg & Ec & _).
  subst w'. rewrite Eg, Ec, scan_groupIds, scan_couponCodes; simpl.
  by rewrite !fold_add_new_dedup.
Qed.

(** C6. After a call with a list payload each of the two indexes holds
    the truthy values met by the scan, once each, in the order in which
    the scan first met them. *)
Theorem processCouponsData_indexes_deduplicated (arg : value) (w : world) :
  is_list_response (mem w) arg = true ->
  let cs := scanned (elements (mem w) (get_own (mem w) arg "data")) in
  let w' := (processCouponsData arg w).2 in
  forall (f : manager -> loc) (seen : list value),
  (f = groupIds ∧ seen = map (resolveGroup (mem w)) cs) ∨
  (f = couponCodes ∧ seen = map (codeOf (mem w)) cs) ->
  NoDup (contents f w') ∧
  Forall (fun v => truthy v) (contents f w') ∧
  (forall x, x ∈ contents f w' <-> x ∈ seen ∧ truthy x) ∧
  (forall r1 y r2, contents f w' = r1 ++ y :: r2 ->
     exists l1 l2, seen = l1 ++ y :: l2 ∧ (y ∉ l1) ∧ forall x, x ∈ r1 -> x ∈ l1) ∧
  contents f w' = dedup_first (filter (fun v => truthy v) seen).
Proof.
  intros H cs w' f seen Hf. destruct w as [m h]; simpl in *.
  destruct (process_indexes arg m h H) as [Eg Ec].
  assert (E : contents f w' = dedup_first (filter (fun v => truthy v) seen)).
  { destruct Hf as [[-> ->]|[-> ->]]; [exact Eg | exact Ec]. }
  rewrite E.
  destruct (dedup_filter_props seen) as (H1 & H2 & H3 & H4).
  repeat split; try done; by apply H3.
Qed.

(** The sample list response: the shared group object and the repeated
    code are stored once, the empty code is skipped. *)
Lemma processCouponsData_indexes_deduplicated_witness :
  let w := new_TestDataManager sample_heap in
  let w' := (processCouponsData sample_response w).2 in
  contents groupIds w' = [VStr "g1"; VStr "g2"] ∧
  contents couponCodes w' = [VStr "AAA"; VStr "BBB"] ∧
  NoDup (contents groupIds w') ∧
  Forall (fun v => truthy v) (contents groupIds w').
Proof.
  intros w w'.
  assert (H : is_list_response (mem w) sample_response = true) by (vm_compute; reflexivity).
  destruct (processCouponsData_indexes_deduplicated sample_response w H groupIds _
              (or_introl (conj eq_refl eq_refl))) as (H1 & H2 & _).
  split; [vm_compute; reflexivity|].
  split; [vm_compute; reflexivity|].
  split; [exact H1 | exact H2].
Defined.

(** *** Invariant of the reachable states *)

Lemma inv_layout m ix h :
  separate m h ->
  Forall (fun v => truthy v) (ix_groupIds ix) -> NoDup (ix_groupIds ix) ->
  Forall (fun v => truthy v) (ix_couponCodes ix) -> NoDup (ix_couponCodes ix) ->
  inv (World m (layout m ix h)).
Proof.
  intros Hs ? ? ? ?. constructor; simpl.
  - exists (ix_groupIds ix). by rewrite layout_groupIds.
  - exists (ix_couponCodes ix). by rewrite layout_couponCodes.
  - exists (ix_coupons ix). by rewrite layout_coupons.
Qed.

Lemma inv_process arg w : inv w -> inv (processCouponsData arg w).2.
Proof.
  intros Hw. destruct (is_list_response (mem w) arg) eqn:Hl.
  - destruct w as [m h]; simpl in Hl.
    pose proof Hl as [Ha Harr]%is_list_response_true.
    rewrite processCouponsData_array by done. simpl.
    set (cs := elements h (get_own h arg "data")).
    apply inv_layout; [apply fresh3_separate|..];
      rewrite ?scan_groupIds, ?scan_couponCodes; simpl;
      rewrite fold_add_new_dedup; apply dedup_filter_props.
  - rewrite processCouponsData_noop; [done|].
    unfold is_list_response in Hl. rewrite !andb_false_iff in Hl. tauto.
Qed.

Lemma spread_spec f w :
  spread f w =
  (Ok (VRef (fresh (dom (mem w)))),
   World (this w) (<[fresh (dom (mem w)) := OArr (contents f w)]> (mem w))).
Proof. done. Qed.

Lemma reachable_inv w : reachable w -> inv w.
Proof.
  induction 1 as [h|arg w _ IH|w _ IH|f w _ IH|w h' _ IH Hg Hc Hk].
  - apply (inv_layout (fresh3 h) ix0 h (fresh3_separate h)); constructor.
  - by apply inv_process.
  - apply (inv_layout (fresh3 (mem w)) ix0 (mem w) (fresh3_separate _)); constructor.
  - rewrite spread_spec; simpl.
    assert (Hfr : mem w !! fresh (dom (mem w)) = None) by apply not_elem_of_dom, is_fresh.
    destruct IH as [(gs & Hgs & ?) (cs & Hcs & ?) (ks & Hks)].
    constructor; simpl.
    + exists gs. rewrite lookup_insert_ne; [done|congruence].
    + exists cs. rewrite lookup_insert_ne; [done|congruence].
    + exists ks. rewrite lookup_insert_ne; [done|congruence].
  - destruct IH as [(gs & Hgs & ?) (cs & Hcs & ?) (ks & Hks)].
    constructor; simpl.
    + exists gs. by rewrite Hg.
    + exists cs. by rewrite Hc.
    + exists ks. by rewrite Hk.
Qed.

(** *** Random choice *)

Lemma randomIndex_iff (r : Q) (n : nat) (i : Z) :
  randomIndex r n = i <->
  (inject_Z i <= r * inject_Z (Z.of_nat n))%Q ∧
  (r * inject_Z (Z.of_nat n) < inject_Z (i + 1))%Q.
Proof.
  unfold randomIndex. set (x := (r * inject_Z (Z.of_nat n))%Q). split.
  - intros <-. split; [apply Qfloor_le | apply Qlt_floor].
  - intros [Hlo Hhi].
    apply Qfloor_resp_le in Hlo. rewrite Qfloor_Z in Hlo.
    pose proof (Qfloor_le x) as Hfl.
    assert (Hlt : (inject_Z (Qfloor x) < inject_Z (i + 1))%Q)
      by (eapply Qle_lt_trans; eassumption).
    rewrite <- Zlt_Qlt in Hlt. lia.
Qed.

Lemma randomIndex_range (r : Q) (n : nat) :
  (0 <= r)%Q -> (r < 1)%Q -> (0 < n)%nat ->
  (0 <= randomIndex r n < Z.of_nat n)%Z.
Proof.
  intros H0 H1 Hn.
  assert (Hn' : (0 < inject_Z (Z.of_nat n))%Q).
  { change 0%Q with (inject_Z 0). rewrite <- Zlt_Qlt. lia. }
  destruct (proj1 (randomIndex_iff r n _) eq_refl) as [Hlo Hhi].
  split.
  - assert (H : (inject_Z 0 <= r * inject_Z (Z.of_nat n))%Q).
    { change (inject_Z 0) with 0%Q. apply Qmult_le_0_compat; [done|].
      by apply Qlt_le_weak. }
    apply Qfloor_resp_le in H. by rewrite Qfloor_Z in H.
  - assert (H : (r * inject_Z (Z.of_nat n) < inject_Z (Z.of_nat n))%Q).
    { rewrite <- (Qmult_1_l (inject_Z (Z.of_nat n))) at 2.
      by apply Qmult_lt_compat_r. }
    assert (Hlt : (inject_Z (randomIndex r n) < inject_Z (Z.of_nat n))%Q)
      by (eapply Qle_lt_trans; eassumption).
    by rewrite <- Zlt_Qlt in Hlt.
Qed.


Lemma sample_world_reachable : reachable sample_world.
Proof. apply reach_processCouponsData, reach_new. Qed.


(** *** Accessors hand out copies *)

Lemma inv_lookup_field w f :
  inv w -> f = groupIds ∨ f = couponCodes ∨ f = coupons ->
  exists es, mem w !! f (this w) = Some (OArr es).
Proof.
  intros [(gs & ? & _) (cs & ? & _) (ks & ?)] [-> | [-> | ->]]; eauto.
Qed.

Lemma accessor_of_field acc f :
  accessor_of acc f ->
  acc = spread f ∧ (f = groupIds ∨ f = couponCodes ∨ f = coupons).
Proof. destruct 1; split; auto. Qed.

(** C10. An accessor returns a new array holding the entries of its
    field; whatever is then done to that array, the three fields of the
    manager, what the accessors return next and the counts of [getStats]
    are what they were. *)
Theorem accessors_return_fresh_copies
    (acc acc' : M value) (f f' : manager -> loc) (w : world) (o : object) :
  reachable w -> accessor_of acc f -> accessor_of acc' f' ->
  exists l,
    let w1 := (acc w).2 in
    let w2 := World (this w1) (<[l := o]> (mem w1)) in
    (acc w).1 = Ok (VRef l) ∧
    mem w !! l = None ∧
    elements (mem w1) (VRef l) = contents f w ∧
    this w2 = this w ∧
    (forall g, accessor_of (spread g) g ->
       mem w2 !! g (this w2) = mem w !! g (this w) ∧
       contents g w2 = contents g w) ∧
    (getStats w2).1 = (getStats w).1 ∧
    (exists l', (acc' w2).1 = Ok (VRef l') ∧
                elements (mem (acc' w2).2) (VRef l') = contents f' w).
Proof.
  intros Hw [-> Hf]%accessor_of_field [-> Hf']%accessor_of_field.
  pose proof (reachable_inv w Hw) as Hinv.
  set (l := fresh (dom (mem w))).
  assert (Hl : mem w !! l = None) by apply not_elem_of_dom, is_fresh.
  exists l. rewrite spread_spec; simpl. fold l.
  assert (Hkeep : forall g, g = groupIds ∨ g = couponCodes ∨ g = coupons ->
            (<[l := o]> (<[l := OArr (contents f w)]> (mem w))) !! g (this w) =
            mem w !! g (this w)).
  { intros g Hg. destruct (inv_lookup_field w g Hinv Hg) as [es Hes].
    rewrite !lookup_insert_ne; [done|congruence..]. }
  assert (Hcont : forall g, g = groupIds ∨ g = couponCodes ∨ g = coupons ->
            contents g (World (this w) (<[l := o]> (<[l := OArr (contents f w)]> (mem w)))) =
            contents g w).
  { intros g Hg. unfold contents; simpl. by rewrite Hkeep. }
  split; [done|]. split; [done|].
  split; [by rewrite lookup_insert_eq|].
  split; [done|].
  split.
  { intros g [_ Hg]%accessor_of_field. split; [by apply Hkeep | by apply Hcont]. }
  split.
  { unfold getStats, read; simpl. rewrite !Hcont; auto. }
  eexists. split; [done|]. simpl. rewrite lookup_insert_eq. by apply Hcont.
Qed.

(** On the sample manager: [getAllGroupIds()], then the returned array is
    overwritten, then [getAllGroupIds()] again and [getStats()]. *)
Lemma accessors_return_fresh_copies_witness :
  exists l,
    let w1 := (getAllGroupIds sample_world).2 in
    let w2 := World (this w1) (<[l := OArr [VStr "tampered"]]> (mem w1)) in
    (getAllGroupIds sample_world).1 = Ok (VRef l) ∧
    contents groupIds w2 = [VStr "g1"; VStr "g2"] ∧
    (getStats w2).1 = Ok (Stats 4 2 2).
Proof.
  destruct (accessors_return_fresh_copies getAllGroupIds getAllGroupIds
              groupIds groupIds sample_world (OArr [VStr "tampered"])
              sample_world_reachable acc_groupIds acc_groupIds)
    as (l & H1 & _ & _ & _ & H5 & H6 & _).
  exists l. split; [exact H1|].
  destruct (H5 groupIds acc_groupIds) as [_ Hc].
  split.
  - etransitivity; [exact Hc|]. vm_compute. reflexivity.
  - etransitivity; [exact H6|]. vm_compute. reflexivity.
Defined.

Lemma processCouponsData_noop_or_replaces_witness :
  let w := new_TestDataManager sample_heap in
  processCouponsData VUndefined sample_world = (Ok tt, sample_world) ∧
  contents groupIds (processCouponsData sample_response sample_world).2 =
  contents groupIds (processCouponsData sample_response w).2.
Proof.
  intros w. split.
  - apply (processCouponsData_noop_or_replaces VUndefined VUndefined
             sample_world sample_world).
    by left.
  - apply (processCouponsData_noop_or_replaces sample_response sample_response
             sample_world w).
    + vm_compute; reflexivity.
    + vm_compute; reflexivity.
    + vm_compute; reflexivity.
    + intros c Hc.
      assert (Hc' : c ∈ [VRef 3; VRef 4; VRef 5; VRef 6]) by exact Hc.
      repeat (apply elem_of_cons in Hc' as [-> | Hc']);
        [split; vm_compute; reflexivity ..|].
      by apply elem_of_nil in Hc'.
Defined.

(** *** Resolution of the [group] relation *)

Lemma scanned_subseteq cs c : c ∈ scanned cs -> c ∈ cs.
Proof.
  induction cs as [|a l IH]; simpl; [done|].
  destruct (nullish a); [by intros ?%elem_of_nil|].
  rewrite !elem_of_cons. intros [->|H]; [by left|right; by apply IH].
Qed.

Lemma resolveGroup_shape h c :
  group_shape_ok h c = true ->
  truthy (resolveGroup h c) = true ->
  is_scalar (resolveGroup h c) = true.
Proof.
  unfold group_shape_ok, resolveGroup.
  destruct (truthy (get_own h c "group")) eqn:Ht; simpl; [|done].
  destruct (is_scalar (get_own h c "group")) eqn:Hs; simpl.
  - intros _ _.
    destruct (get_own h c "group"); simpl in *; try discriminate; done.
  - intros H _. apply andb_true_iff in H as [H Hid].
    by rewrite H.
Qed.

(** C1, as the code has it.  A bare non-empty string resolves to itself
    and an object with a truthy [_id] to that [_id]; the resolved
    identifier of every record scanned is stored; and when every record's
    [group] is falsy, a scalar, or an object whose [_id] is a truthy
    scalar, the group-identifier index holds scalars only. *)
Theorem resolveGroup_scalar_on_known_shapes (arg : value) (w : world) :
  is_list_response (mem w) arg = true ->
  let h := mem w in
  let cs := elements h (get_own h arg "data") in
  let w' := (processCouponsData arg w).2 in
  (forall c s, get_own h c "group" = VStr s -> s ≠ "" -> resolveGroup h c = VStr s) ∧
  (forall c l, get_own h c "group" = VRef l ->
     truthy (get_own h (VRef l) "_id") = true ->
     resolveGroup h c = get_own h (VRef l) "_id") ∧
  (forall c, c ∈ scanned cs -> truthy (resolveGroup h c) = true ->
     resolveGroup h c ∈ contents groupIds w') ∧
  ((forall c, c ∈ cs -> group_shape_ok h c = true) ->
   Forall (fun v => is_scalar v = true) (contents groupIds w')).
Proof.
  intros Hl h cs w'. destruct w as [m h0]; simpl in *. subst h.
  destruct (process_indexes arg m h0 Hl) as [Eg _]. fold cs in Eg.
  split; [|split; [|split]].
  - intros c s Hg Hs. unfold resolveGroup. rewrite Hg; simpl.
    by rewrite bool_decide_eq_false_2.
  - intros c l Hg Hid. unfold resolveGroup. rewrite Hg; simpl. by rewrite Hid.
  - intros c Hc Ht. subst w'. rewrite Eg.
    apply elem_of_dedup_first, list_elem_of_filter. split; [by rewrite Ht|].
    apply list_elem_of_In, in_map, list_elem_of_In, Hc.
  - intros Hshape. subst w'. rewrite Eg. apply Forall_forall.
    intros x [Ht Hx]%elem_of_dedup_first%list_elem_of_filter.
    apply list_elem_of_In, in_map_iff in Hx as (c & <- & Hc%list_elem_of_In).
    apply resolveGroup_shape; [by apply Hshape, scanned_subseteq|].
    by destruct (truthy (resolveGroup h0 c)).
Qed.

Lemma resolveGroup_scalar_on_known_shapes_witness :
  let w := new_TestDataManager sample_heap in
  let w' := (processCouponsData sample_response w).2 in
  resolveGroup (mem w) (VRef 3) = VStr "g1" ∧
  resolveGroup (mem w) (VRef 4) = VStr "g2" ∧
  Forall (fun v => is_scalar v = true) (contents groupIds w').
Proof.
  intros w w'.
  assert (H : is_list_response (mem w) sample_response = true) by (vm_compute; reflexivity).
  destruct (resolveGroup_scalar_on_known_shapes sample_response w H)
    as (Hstr & Hobj & _ & Hall).
  split; [|split].
  - rewrite (Hobj (VRef 3) 7%positive); vm_compute; reflexivity.
  - apply Hstr; [vm_compute; reflexivity | discriminate].
  - apply Hall. intros c Hc.
    assert (Hc' : c ∈ [VRef 3; VRef 4; VRef 5; VRef 6]) by exact Hc.
    repeat (apply elem_of_cons in Hc' as [-> | Hc']);
      [vm_compute; reflexivity ..|].
    by apply elem_of_nil in Hc'.
Defined.

(** C1 as worded fails: an embedded group without [_id] is stored as the
    object itself, and the callers' second normalisation
    ([extractedGroupIds]) leaves it an object. *)
Lemma index_holds_object_counterexample :
  let w' := (processCouponsData (VRef 1) (new_TestDataManager odd_heap)).2 in
  is_list_response odd_heap (VRef 1) = true ∧
  get_own odd_heap (VRef 3) "group" = VRef 4 ∧
  contents groupIds w' = [VRef 4] ∧
  is_scalar (VRef 4) = false ∧
  extractGroupId (mem w') (VRef 4) = Ok (VRef 4) ∧
  ¬ Forall (fun v => is_scalar v = true) (contents groupIds w').
Proof.
  intros w'. repeat split; try (vm_compute; reflexivity).
  intros H.
  assert (E : contents groupIds w' = [VRef 4]) by (vm_compute; reflexivity).
  rewrite E in H. apply Forall_cons in H as [H _]. discriminate H.
Qed.

End TestDataManagerFacts.

Module ApiClientFacts.

Import Playwright ApiClient.

(** *** Strings *)

Lemma append_cons (x : ascii) (a b : string) :
  (String x a ++ b = String x (a ++ b))%string.
Proof. reflexivity. Qed.



Lemma append_eq_nil (a b : string) : (a ++ b = "")%string -> a = "" ∧ b = "".
Proof. destruct a; [done|]. rewrite append_cons. discriminate. Qed.

Lemma encode_pair_nonempty h kv : encode_pair h kv ≠ "".
Proof.
  unfold encode_pair. intros H.
  apply append_eq_nil in H as [_ H]. discriminate H.
Qed.

Lemma concat_nonempty sep (l : list string) :
  l ≠ [] -> (forall x, x ∈ l -> x ≠ "") -> String.concat sep l ≠ "".
Proof.
  destruct l as [|x l]; [done|]. intros _ Hne.
  assert (Hx : x ≠ "") by (apply Hne; by left).
  destruct l as [|y l]; simpl; [done|].
  intros H. by apply append_eq_nil in H as [? _].
Qed.


(** *** [params.token] *)





(** *** One call of a method *)

Section Calls.

Context {S : Type}.
Variable serve : http_request -> S -> result http_response * S.
Variable h : heap.

Lemma get_run c endpoint params st :
  get serve h c endpoint params st =
  after_call serve "GET" endpoint (get_request c h endpoint params) st.
Proof.
  unfold get, after_call, get_request, try_catch, mbind, T_bind, request, lift,
    console_error, print, throw, normalize; simpl.
  destruct (serve _ (remote st)) as [[resp|err] s']; simpl; [|reflexivity].
  destruct (resp_json resp); simpl; reflexivity.
Qed.






End Calls.


End ApiClientFacts.

Module PlaywrightFacts.

Import Playwright.

Section Runs.

Context {S : Type}.






End Runs.

End PlaywrightFacts.

Module CleanupFacts.

Import Playwright ApiClient ApiClientFacts PlaywrightFacts.

Section Cleanup.

Context {S : Type}.
Variable serve : http_request -> S -> result http_response * S.
Variable h : heap.
Variable e : env.






End Cleanup.


End CleanupFacts.

Module ScenarioFacts.

Import Playwright ApiClient ApiClientFacts PlaywrightFacts CleanupFacts.

Section Matchers.

Context {S : Type}.
Variable h : heap.




End Matchers.



Section Scenarios.

Context {S : Type}.
Variable serve : http_request -> S -> result http_response * S.
Variable h : heap.
Variable e : env.







End Scenarios.

(** Runs against the scripted service. *)





End ScenarioFacts.

(* ===================================================================== *)
(** * Further properties of the manager                                   *)
(* ===================================================================== *)

Module TestDataManagerMore.

Import TestDataManager TestDataManagerFacts ManagerUse.

(** *** [clear] *)

Lemma clear_spec w :
  clear w = (Ok tt, World (fresh3 (mem w)) (layout (fresh3 (mem w)) ix0 (mem w))).
Proof. done. Qed.

(** X1. [clear] empties the three indexes whatever they held: the counts
    are zero, the random accessors answer [null], and every object of the
    heap from before the call, arrays handed out earlier among them, is
    as it was. *)
Theorem clear_empties_everything (r : Q) (w : world) :
  let w' := (clear w).2 in
  (clear w).1 = Ok tt ∧
  contents groupIds w' = [] ∧
  contents couponCodes w' = [] ∧
  contents coupons w' = [] ∧
  (getStats w').1 = Ok (Stats 0 0 0) ∧
  (getRandomGroupId r w').1 = Ok VNull ∧
  (getRandomCouponCode r w').1 = Ok VNull ∧
  (getRandomCoupon r w').1 = Ok VNull ∧
  (forall l, is_Some (mem w !! l) -> mem w' !! l = mem w !! l).
Proof.
  intros w'. subst w'. rewrite clear_spec. simpl.
  pose proof (fresh3_separate (mem w)) as Hs.
  assert (Hg : contents groupIds
                 (World (fresh3 (mem w)) (layout (fresh3 (mem w)) ix0 (mem w))) = [])
    by (by rewrite contents_layout_groupIds).
  assert (Hc : contents couponCodes
                 (World (fresh3 (mem w)) (layout (fresh3 (mem w)) ix0 (mem w))) = [])
    by (by rewrite contents_layout_couponCodes).
  assert (Hk : contents coupons
                 (World (fresh3 (mem w)) (layout (fresh3 (mem w)) ix0 (mem w))) = [])
    by (by rewrite contents_layout_coupons).
  split; [done|]. split; [done|]. split; [done|]. split; [done|].
  unfold getStats, getRandomGroupId, getRandomCouponCode, getRandomCoupon, pickRandom,
    mbind, M_bind, read, mret, M_ret; simpl.
  rewrite Hg, Hc, Hk. simpl.
  repeat split; try done.
  intros l Hl. by apply layout_old.
Qed.

(** *** Counts *)

Lemma add_new_length acc v : (length (add_new acc v) <= S (length acc))%nat.
Proof.
  unfold add_new. destruct (truthy v && negb (bool_decide (v ∈ acc))); [|lia].
  rewrite length_app. simpl. lia.
Qed.

Lemma scan_counts h cs : forall ix,
  (length (ix_groupIds ix) <= length (ix_coupons ix))%nat ->
  (length (ix_couponCodes ix) <= length (ix_coupons ix))%nat ->
  (length (ix_groupIds (scan h cs ix).2) <= length (ix_coupons (scan h cs ix).2))%nat ∧
  (length (ix_couponCodes (scan h cs ix).2) <= length (ix_coupons (scan h cs ix).2))%nat.
Proof.
  induction cs as [|c cs IH]; intros ix Hg Hc; simpl; [done|].
  destruct (get_prop h c "group"); simpl.
  - apply IH; simpl; rewrite length_app; simpl.
    + pose proof (add_new_length (ix_groupIds ix) (resolveGroup h c)). lia.
    + pose proof (add_new_length (ix_couponCodes ix) (codeOf h c)). lia.
  - rewrite length_app. simpl. lia.
Qed.

Lemma contents_keep f w h' :
  h' !! f (this w) = mem w !! f (this w) ->
  contents f (World (this w) h') = contents f w.
Proof. intros H. unfold contents; simpl. by rewrite H. Qed.

Lemma reachable_counts w : reachable w -> counts_ok w.
Proof.
  induction 1 as [h|arg w Hw IH|w _ IH|f w Hw IH|w h' _ IH Hg Hc Hk].
  - pose proof (fresh3_separate h) as Hs. unfold counts_ok.
    change (new_TestDataManager h) with (World (fresh3 h) (layout (fresh3 h) ix0 h)).
    by rewrite contents_layout_groupIds, contents_layout_couponCodes,
      contents_layout_coupons.
  - destruct (is_list_response (mem w) arg) eqn:Hl.
    + destruct w as [m h]; simpl in Hl.
      destruct (process_contents arg m h Hl) as (Eg & Ec & Ek).
      unfold counts_ok. rewrite Eg, Ec, Ek.
      apply scan_counts; simpl; lia.
    + rewrite processCouponsData_noop; [done|].
      unfold is_list_response in Hl. rewrite !andb_false_iff in Hl. tauto.
  - pose proof (fresh3_separate (mem w)) as Hs. rewrite clear_spec. unfold counts_ok.
    simpl.
    by rewrite contents_layout_groupIds, contents_layout_couponCodes,
      contents_layout_coupons.
  - rewrite spread_spec; simpl.
    pose proof (reachable_inv w Hw) as [(gs & Hgs & _) (cs & Hcs & _) (ks & Hks)].
    assert (Hfr : mem w !! fresh (dom (mem w)) = None) by apply not_elem_of_dom, is_fresh.
    unfold counts_ok.
    rewrite !contents_keep; [done|..]; rewrite lookup_insert_ne; congruence.
  - unfold counts_ok. by rewrite !contents_keep.
Qed.

(** X2. In every state a manager can be in, [getStats] reports no more
    unique group identifiers and no more unique coupon codes than
    coupons. *)
Theorem getStats_unique_counts_bounded (w : world) :
  reachable w ->
  exists s,
    getStats w = (Ok s, w) ∧
    (uniqueGroupIds s <= totalCoupons s)%nat ∧
    (uniqueCouponCodes s <= totalCoupons s)%nat.
Proof.
  intros [Hg Hc]%reachable_counts.
  eexists. split; [reflexivity|]. simpl. split; done.
Qed.

Lemma getStats_unique_counts_bounded_witness :
  exists s,
    getStats sample_world = (Ok s, sample_world) ∧
    (uniqueGroupIds s <= totalCoupons s)%nat ∧
    (uniqueCouponCodes s <= totalCoupons s)%nat.
Proof.
  exact (getStats_unique_counts_bounded sample_world sample_world_reachable).
Defined.

(** *** Random choice in the other two lists *)

Lemma pickRandom_spec (f : manager -> loc) (r : Q) (w : world) :
  (0 <= r)%Q -> (r < 1)%Q ->
  let es := contents f w in
  let n := length es in
  exists v,
    pickRandom f r w = (Ok v, w) ∧
    (es = [] -> v = VNull) ∧
    (es ≠ [] ->
     exists i : nat,
       (i < n)%nat ∧ es !! i = Some v ∧
       (inject_Z (Z.of_nat i) <= r * inject_Z (Z.of_nat n))%Q ∧
       (r * inject_Z (Z.of_nat n) < inject_Z (Z.of_nat i + 1))%Q).
Proof.
  intros H0 H1 es n.
  unfold pickRandom, mbind, M_bind, read, mret, M_ret; simpl. fold es. fold n.
  destruct es as [|e es'] eqn:Hes.
  { exists VNull. simpl. split; [done|]. split; [done|]. by intros []. }
  assert (Hn : (0 < n)%nat) by (unfold n; simpl; lia).
  rewrite bool_decide_eq_false_2 by (unfold n in *; simpl in *; lia).
  destruct (randomIndex_range r n H0 H1 Hn) as [Hlo Hhi].
  set (k := Z.to_nat (randomIndex r n)).
  assert (Hk : (k < n)%nat) by (unfold k; lia).
  destruct (lookup_lt_is_Some_2 (e :: es') k Hk) as [v Hv].
  exists v. rewrite Hv; simpl. split; [done|]. split; [done|].
  intros _. exists k. split; [done|]. split; [done|].
  apply randomIndex_iff. unfold k. lia.
Qed.



(** X4. [getRandomCoupon] answers [null] when no coupon is held and
    otherwise the coupon at a position inside the list, so never
    [undefined] for want of an element; the coupon it answers can itself
    be [null], since the scan stores a [null] element before it throws
    on it. *)
Theorem getRandomCoupon_in_range (r : Q) (w : world) :
  (0 <= r)%Q -> (r < 1)%Q ->
  let es := contents coupons w in
  (exists v,
     getRandomCoupon r w = (Ok v, w) ∧
     (es = [] -> v = VNull) ∧
     (es ≠ [] -> v ∈ es)) ∧
  (forall arg m h pre post,
     is_list_response h arg = true ->
     elements h (get_own h arg "data") = pre ++ VNull :: post ->
     scanned pre = pre ->
     let w' := (processCouponsData arg (World m h)).2 in
     last (contents coupons w') = Some VNull ∧
     ((inject_Z (Z.of_nat (length pre)) <= r * inject_Z (Z.of_nat (S (length pre))))%Q ->
      (getRandomCoupon r w').1 = Ok VNull)).
Proof.
  intros H0 H1 es. split.
  - destruct (pickRandom_spec coupons r w H0 H1) as (v & Hrun & Hnil & Hpick).
    exists v. split; [exact Hrun|]. split; [exact Hnil|].
    intros He. destruct (Hpick He) as (k & _ & Hv & _).
    apply list_elem_of_lookup; eauto.
  - intros arg m h pre post Hl Hcs Hpre w'.
    destruct (process_contents arg m h Hl) as (_ & _ & Ek). fold w' in Ek.
    rewrite scan_coupons, Hcs in Ek. simpl in Ek.
    assert (Hsc : scanned (pre ++ VNull :: post) = pre).
    { clear -Hpre. induction pre as [|a pre IH]; simpl in *; [done|].
      destruct (nullish a); [discriminate|]. injection Hpre as Hpre.
      by rewrite IH. }
    rewrite Hsc in Ek.
    assert (Etake : take (S (length pre)) (pre ++ VNull :: post) = pre ++ [VNull]).
    { rewrite take_app_ge by lia.
      replace (S (length pre) - length pre)%nat with 1%nat by lia. done. }
    rewrite Etake in Ek.
    split; [rewrite Ek; apply last_snoc|].
    intros Hlo.
    destruct (pickRandom_spec coupons r w' H0 H1) as (v & Hrun & _ & Hpick).
    unfold getRandomCoupon. rewrite Hrun. simpl. f_equal.
    rewrite Ek in Hpick.
    destruct Hpick as (k & Hk & Hv & Hklo & Hkhi); [by destruct pre|].
    rewrite length_app in Hk, Hklo, Hkhi. simpl in Hk, Hklo, Hkhi.
    replace (length pre + 1)%nat with (S (length pre)) in * by lia.
    assert (E1 : randomIndex r (S (length pre)) = Z.of_nat k)
      by (apply randomIndex_iff; done).
    destruct (randomIndex_range r (S (length pre)) H0 H1 ltac:(lia)) as [_ Hup].
    assert (E2 : (Z.of_nat (length pre) <= randomIndex r (S (length pre)))%Z).
    { unfold randomIndex. apply Qfloor_resp_le in Hlo. by rewrite Qfloor_Z in Hlo. }
    assert (k = length pre) as -> by lia.
    rewrite lookup_app_r in Hv by lia.
    replace (length pre - length pre)%nat with 0%nat in Hv by lia.
    simpl in Hv. congruence.
Qed.

Lemma getRandomCoupon_in_range_witness :
  (getRandomCoupon (3 # 4) holed_world).1 = Ok VNull ∧
  contents coupons holed_world = [VRef 3; VNull].
Proof.
  split; [|vm_compute; reflexivity].
  destruct (getRandomCoupon_in_range (3 # 4) holed_world) as [_ H].
  - unfold Qle; simpl; lia.
  - unfold Qlt; simpl; lia.
  - apply (H (VRef 1) _ _ [VRef 3] [VRef 4]).
    + vm_compute; reflexivity.
    + vm_compute; reflexivity.
    + reflexivity.
    + unfold Qle; simpl; lia.
Defined.

(** *** Ingesting again, and reading back *)

Lemma scan_ext h1 h2 cs :
  (forall v k, get_own h1 v k = get_own h2 v k) ->
  forall ix, scan h1 cs ix = scan h2 cs ix.
Proof.
  intros Hext. induction cs as [|c cs IH]; intros ix; simpl; [done|].
  assert (Hp : get_prop h1 c "group" = get_prop h2 c "group").
  { destruct c; try reflexivity. unfold get_prop. f_equal. apply Hext. }
  assert (Hr : resolveGroup h1 c = resolveGroup h2 c).
  { unfold resolveGroup. by rewrite !Hext. }
  assert (Hc : codeOf h1 c = codeOf h2 c) by apply Hext.
  by rewrite Hp, Hr, Hc, IH.
Qed.

Lemma is_list_response_layout m ix h arg :
  separate m h ->
  is_list_response h arg = true ->
  is_list_response (layout m ix h) arg = true ∧
  elements (layout m ix h) (get_own (layout m ix h) arg "data") =
  elements h (get_own h arg "data").
Proof.
  intros Hs [Ha Harr]%is_list_response_true.
  rewrite get_own_layout by done.
  destruct (get_own h arg "data") as [| | | | |l] eqn:Hd; try discriminate.
  simpl in Harr. destruct (h !! l) as [[ps|es]|] eqn:Hl; try discriminate.
  assert (Hl' : layout m ix h !! l = Some (OArr es)).
  { rewrite layout_old; [done | by rewrite Hl | done]. }
  split.
  - apply is_list_response_true. rewrite get_own_layout, Hd by done.
    split; [done|]. simpl. by rewrite Hl'.
  - simpl. by rewrite Hl', Hl.
Qed.

(** X5. Ingesting the same list response a second time changes neither
    the outcome nor what the three lists hold: the call is idempotent. *)
Theorem processCouponsData_idempotent (arg : value) (w : world) :
  is_list_response (mem w) arg = true ->
  let r1 := processCouponsData arg w in
  let r2 := processCouponsData arg r1.2 in
  r2.1 = r1.1 ∧
  contents groupIds r2.2 = contents groupIds r1.2 ∧
  contents couponCodes r2.2 = contents couponCodes r1.2 ∧
  contents coupons r2.2 = contents coupons r1.2 ∧
  (getStats r2.2).1 = (getStats r1.2).1.
Proof.
  intros Hl r1 r2. destruct w as [m h]; simpl in Hl.
  pose proof Hl as [Ha Harr]%is_list_response_true.
  pose proof (fresh3_separate h) as Hs.
  set (cs := elements h (get_own h arg "data")).
  set (m1 := fresh3 h). set (ix1 := (scan h cs ix0).2).
  set (h1 := layout m1 ix1 h).
  assert (E1 : r1 = ((scan h cs ix0).1, World m1 h1)).
  { unfold r1. by rewrite processCouponsData_array. }
  destruct (is_list_response_layout m1 ix1 h arg Hs Hl) as [Hl1 Hcs1].
  fold h1 in Hl1, Hcs1. fold cs in Hcs1.
  pose proof Hl1 as [Ha1 Harr1]%is_list_response_true.
  assert (E2 : r2 = ((scan h1 cs ix0).1,
                     World (fresh3 h1) (layout (fresh3 h1) (scan h1 cs ix0).2 h1))).
  { unfold r2. rewrite E1. simpl. rewrite processCouponsData_array by done.
    by rewrite Hcs1. }
  assert (Hscan : scan h1 cs ix0 = scan h cs ix0).
  { apply scan_ext. intros v k. by apply get_own_layout. }
  pose proof (fresh3_separate h1) as Hs1.
  rewrite E2, E1, Hscan. simpl.
  unfold getStats, read; simpl.
  rewrite (contents_layout_groupIds (fresh3 h1)), (contents_layout_couponCodes (fresh3 h1)),
    (contents_layout_coupons (fresh3 h1)) by done.
  unfold h1.
  rewrite (contents_layout_groupIds m1), (contents_layout_couponCodes m1),
    (contents_layout_coupons m1) by done.
  done.
Qed.

(** X6. After a list without [null] or [undefined] elements was
    ingested, [getAllCoupons] returns exactly the records of the list, in
    order, and [getStats] counts as many coupons as the list has
    elements. *)
Theorem ingest_then_getAllCoupons_round_trip (arg : value) (w : world) :
  is_list_response (mem w) arg = true ->
  let cs := elements (mem w) (get_own (mem w) arg "data") in
  scanned cs = cs ->
  let w1 := (processCouponsData arg w).2 in
  (processCouponsData arg w).1 = Ok tt ∧
  (exists l,
     (getAllCoupons w1).1 = Ok (VRef l) ∧
     elements (mem (getAllCoupons w1).2) (VRef l) = cs) ∧
  (exists s, (getStats w1).1 = Ok s ∧ totalCoupons s = length cs).
Proof.
  destruct w as [m h]. cbn beta iota delta [mem this]. intros Hl cs Hcs w1.
  pose proof Hl as [Ha Harr]%is_list_response_true.
  destruct (process_contents arg m h Hl) as (_ & _ & Ek).
  fold cs in Ek. fold w1 in Ek.
  rewrite scan_coupons, Hcs in Ek. simpl in Ek.
  rewrite take_ge in Ek by lia.
  split.
  { rewrite processCouponsData_array by done. simpl. by apply scan_outcome. }
  split.
  - unfold getAllCoupons. rewrite spread_spec. simpl.
    eexists. split; [reflexivity|]. simpl. by rewrite lookup_insert_eq.
  - eexists. split; [reflexivity|]. simpl. by rewrite Ek.
Qed.

(** *** A [null] or [undefined] element *)

Lemma scanned_all cs : scanned cs = cs <-> Forall (fun c => nullish c = false) cs.
Proof.
  induction cs as [|c cs IH]; simpl; [by split|].
  destruct (nullish c) eqn:Hn.
  - split; [discriminate|]. intros [H _]%Forall_cons. congruence.
  - rewrite Forall_cons, <- IH. split.
    + intros [= E]. by split.
    + intros [_ E]. by rewrite E.
Qed.

Lemma scanned_app_nullish pre c post :
  scanned pre = pre -> nullish c = true -> scanned (pre ++ c :: post) = pre.
Proof.
  intros Hpre Hc. induction pre as [|a pre IH]; simpl in *; [by rewrite Hc|].
  destruct (nullish a); [discriminate|]. injection Hpre as Hpre. by rewrite IH.
Qed.

Lemma scan_outcome_app h pre c post : forall ix,
  scanned pre = pre -> nullish c = true ->
  (scan h (pre ++ c :: post) ix).1 =
  match get_prop h c "group" with Ok _ => Ok tt | Throw err => Throw err end.
Proof.
  induction pre as [|a pre IH]; intros ix Hpre Hc; simpl in *.
  - destruct c; try discriminate; done.
  - destruct (nullish a) eqn:Ha; [discriminate|]. injection Hpre as Hpre.
    destruct a; try discriminate; simpl; by apply IH.
Qed.

(** X7. A call with a list payload returns normally exactly when no
    element of the list is [null] or [undefined].  At the first such
    element it throws the [TypeError] of reading [group] off it, and by
    then it has stored the elements before it and that element itself
    in the list of coupons, and built the two indexes from the elements
    before it. *)
Theorem processCouponsData_throws_at_first_null (arg : value) (w : world) :
  is_list_response (mem w) arg = true ->
  let h := mem w in
  let cs := elements h (get_own h arg "data") in
  let r := processCouponsData arg w in
  (r.1 = Ok tt <-> Forall (fun c => nullish c = false) cs) ∧
  (forall pre c post,
     cs = pre ++ c :: post ->
     Forall (fun c => nullish c = false) pre ->
     nullish c = true ->
     r.1 = Throw (TypeError ("Cannot read properties of " ++ typeof_nullish c
                             ++ " (reading 'group')")) ∧
     contents coupons r.2 = pre ++ [c] ∧
     contents groupIds r.2 =
       dedup_first (filter (fun v => truthy v) (map (resolveGroup h) pre)) ∧
     contents couponCodes r.2 =
       dedup_first (filter (fun v => truthy v) (map (codeOf h) pre))).
Proof.
  destruct w as [m h0]. cbn beta iota delta [mem this]. intros Hl h cs r. subst h.
  pose proof Hl as [Ha Harr]%is_list_response_true.
  assert (Er : r.1 = (scan h0 cs ix0).1).
  { unfold r. by rewrite processCouponsData_array. }
  split.
  { rewrite Er, <- scanned_all. apply scan_outcome. }
  intros pre c post Hcs Hpre%scanned_all Hc.
  destruct (process_contents arg m h0 Hl) as (_ & _ & Ek).
  destruct (process_indexes arg m h0 Hl) as (Eg & Ec).
  fold cs in Ek, Eg, Ec. fold r in Ek, Eg, Ec.
  rewrite Hcs in Ek, Eg, Ec, Er.
  rewrite scanned_app_nullish in Eg, Ec by done.
  rewrite scan_coupons, scanned_app_nullish in Ek by done. simpl in Ek.
  rewrite take_app_ge in Ek by lia.
  replace (S (length pre) - length pre)%nat with 1%nat in Ek by lia.
  split; [|done].
  rewrite Er, scan_outcome_app by done.
  destruct c; try discriminate; reflexivity.
Qed.

(** *** The callers' normalisation *)

Lemma extractGroupId_truthy h v :
  truthy v = true ->
  exists id, extractGroupId h v = Ok id ∧
             (is_scalar v = true -> id = v) ∧
             (typeof v = "object" -> truthy (get_own h v "_id") = true ->
              id = get_own h v "_id") ∧
             (truthy (get_own h v "_id") = false -> id = v).
Proof.
  intros Ht. unfold extractGroupId.
  destruct v as [| |b|n|s|l]; try discriminate;
    try (exists (VBool b); by repeat split);
    try (exists (VNum n); by repeat split);
    try (exists (VStr s); by repeat split).
  rewrite bool_decide_eq_true_2 by done.
  change (get_prop h (VRef l) "_id") with (Ok (get_own h (VRef l) "_id")).
  unfold mbind, result_bind, mret, result_ret.
  destruct (truthy (get_own h (VRef l) "_id")) eqn:Hid.
  - eexists. split; [reflexivity|]. repeat split; try done.
  - eexists. split; [reflexivity|]. repeat split; try done.
Qed.

Lemma extractGroupIds_truthy h raw :
  Forall (fun v => truthy v) raw ->
  exists ids,
    extractGroupIds h raw = Ok ids ∧ length ids = length raw ∧
    forall i v, raw !! i = Some v ->
      exists id, ids !! i = Some id ∧ extractGroupId h v = Ok id.
Proof.
  induction 1 as [|v raw Hv _ (ids & Hrun & Hlen & Hpt)]; simpl.
  - exists []. split; [done|]. split; [done|]. by intros i v Hi.
  - destruct (extractGroupId_truthy h v) as (id & Hid & _).
    { by destruct (truthy v). }
    exists (id :: ids). rewrite Hid, Hrun. simpl.
    split; [done|]. split; [by rewrite Hlen|].
    intros [|i] v' Hi; simpl in *.
    + injection Hi as <-. eauto.
    + by apply Hpt.
Qed.

(** X8. The second normalisation the [beforeAll] hooks apply to what
    [getAllGroupIds] returned never throws, keeps the number of entries,
    leaves every scalar entry as it is and replaces an object entry that
    has a truthy [_id] by that [_id]. *)
Theorem extractGroupIds_on_manager_output (w : world) :
  reachable w ->
  let raw := contents groupIds w in
  let w1 := (getAllGroupIds w).2 in
  exists l ids,
    (getAllGroupIds w).1 = Ok (VRef l) ∧
    elements (mem w1) (VRef l) = raw ∧
    extractGroupIds (mem w1) raw = Ok ids ∧
    length ids = length raw ∧
    forall i v, raw !! i = Some v ->
      exists id, ids !! i = Some id ∧
        (is_scalar v = true -> id = v) ∧
        (typeof v = "object" -> truthy (get_own (mem w1) v "_id") = true ->
         id = get_own (mem w1) v "_id").
Proof.
  intros Hw raw w1.
  destruct (reachable_inv w Hw) as [(gs & Hgs & Htr & _) _ _].
  assert (Eraw : raw = gs) by (unfold raw, contents; simpl; by rewrite Hgs).
  unfold w1, getAllGroupIds. rewrite spread_spec. simpl. fold raw.
  set (h1 := <[fresh (dom (mem w)) := OArr raw]> (mem w)).
  destruct (extractGroupIds_truthy h1 raw) as (ids & Hrun & Hlen & Hpt).
  { by rewrite Eraw. }
  exists (fresh (dom (mem w))), ids.
  split; [done|]. split; [unfold h1; by rewrite lookup_insert_eq|].
  split; [done|]. split; [done|].
  intros i v Hi. destruct (Hpt i v Hi) as (id & Hid & Hx).
  exists id. split; [done|].
  assert (Hvt : truthy v = true).
  { assert (Hin : v ∈ gs) by (rewrite <- Eraw; apply list_elem_of_lookup; eauto).
    rewrite Forall_forall in Htr. specialize (Htr v Hin). by destruct (truthy v). }
  destruct (extractGroupId_truthy h1 v Hvt) as (id' & Hid' & Hsc & Hobj & _).
  assert (id' = id) as -> by congruence.
  split; assumption.
Qed.

(** *** The properties above on the sample responses *)

Lemma processCouponsData_idempotent_witness :
  let r1 := processCouponsData sample_response (new_TestDataManager sample_heap) in
  let r2 := processCouponsData sample_response r1.2 in
  contents groupIds r2.2 = contents groupIds r1.2 ∧
  contents coupons r2.2 = contents coupons r1.2.
Proof.
  intros r1 r2.
  destruct (processCouponsData_idempotent sample_response
              (new_TestDataManager sample_heap)) as (_ & Hg & _ & Hk & _).
  - vm_compute; reflexivity.
  - split; [exact Hg | exact Hk].
Defined.

Lemma ingest_then_getAllCoupons_round_trip_witness :
  let w1 := (processCouponsData sample_response (new_TestDataManager sample_heap)).2 in
  exists l,
    (getAllCoupons w1).1 = Ok (VRef l) ∧
    elements (mem (getAllCoupons w1).2) (VRef l) = [VRef 3; VRef 4; VRef 5; VRef 6].
Proof.
  intros w1.
  destruct (ingest_then_getAllCoupons_round_trip sample_response
              (new_TestDataManager sample_heap)) as (_ & (l & Hl & He) & _).
  - vm_compute; reflexivity.
  - vm_compute; reflexivity.
  - exists l. split; [exact Hl|].
    etransitivity; [exact He|]. vm_compute; reflexivity.
Defined.

Lemma processCouponsData_throws_at_first_null_witness :
  let r := processCouponsData (VRef 1) (new_TestDataManager holed_heap) in
  r.1 = Throw (TypeError "Cannot read properties of null (reading 'group')") ∧
  contents coupons r.2 = [VRef 3; VNull].
Proof.
  intros r.
  destruct (processCouponsData_throws_at_first_null (VRef 1)
              (new_TestDataManager holed_heap)) as [_ H].
  - vm_compute; reflexivity.
  - destruct (H [VRef 3] VNull [VRef 4]) as (Hout & Hk & _).
    + vm_compute; reflexivity.
    + repeat constructor.
    + reflexivity.
    + split; [exact Hout | exact Hk].
Defined.

Lemma extractGroupIds_on_manager_output_witness :
  exists ids,
    extractGroupIds (mem (getAllGroupIds sample_world).2)
      (contents groupIds sample_world) = Ok ids ∧
    length ids = length (contents groupIds sample_world).
Proof.
  destruct (extractGroupIds_on_manager_output sample_world sample_world_reachable)
    as (l & ids & _ & _ & Hrun & Hlen & _).
  exists ids. split; [exact Hrun | exact Hlen].
Defined.

End TestDataManagerMore.

Module ApiClientMore.

Import Playwright ApiClient ApiClientFacts UrlShape.

(** *** Separators *)

Lemma count_char_app c a b :
  count_char c (a ++ b)%string = (count_char c a + count_char c b)%nat.
Proof.
  induction a as [|x a IH]; [done|].
  rewrite append_cons. simpl. rewrite IH. lia.
Qed.

Lemma urlencode_byte_clean x c :
  structural c -> count_char c (urlencode_byte x) = 0%nat.
Proof.
  intros [-> | [-> | ->]];
    destruct x as [[] [] [] [] [] [] [] []]; vm_compute; reflexivity.
Qed.

Lemma urlencode_clean s c : structural c -> count_char c (urlencode s) = 0%nat.
Proof.
  intros Hc. induction s as [|x s IH]; [done|].
  simpl. by rewrite count_char_app, urlencode_byte_clean, IH.
Qed.

Lemma encode_pair_count h kv c :
  structural c ->
  count_char c (encode_pair h kv) = if bool_decide (c = "="%char) then 1%nat else 0%nat.
Proof.
  intros Hc. unfold encode_pair.
  rewrite !count_char_app, !urlencode_clean by done. simpl.
  case_bool_decide as E1; case_bool_decide as E2; congruence || lia.
Qed.

Lemma concat_cons2 sep (a b : string) (l : list string) :
  String.concat sep (a :: b :: l) = (a ++ sep ++ String.concat sep (b :: l))%string.
Proof. reflexivity. Qed.

Lemma query_count h ps c :
  structural c ->
  count_char c (URLSearchParams_toString h ps) =
  if bool_decide (c = "="%char) then length ps
  else if bool_decide (c = "&"%char) then pred (length ps)
  else 0%nat.
Proof.
  intros Hc. unfold URLSearchParams_toString.
  induction ps as [|kv ps IH].
  { simpl. by repeat case_bool_decide. }
  destruct ps as [|kv' ps].
  { simpl. rewrite encode_pair_count by done. by repeat case_bool_decide. }
  change (map (encode_pair h) (kv :: kv' :: ps))
    with (encode_pair h kv :: encode_pair h kv' :: map (encode_pair h) ps).
  rewrite concat_cons2.
  change (encode_pair h kv' :: map (encode_pair h) ps)
    with (map (encode_pair h) (kv' :: ps)).
  rewrite !count_char_app, IH, encode_pair_count by done.
  destruct Hc as [-> | [-> | ->]]; vm_compute bool_decide; simpl; lia.
Qed.

(** [s.includes("?")] says whether [?] occurs in [s]. *)
Lemma substring_one_found c s :
  (0 < count_char c s)%nat ->
  exists m, String.substring m 1 s = String c "".
Proof.
  induction s as [|x s IH]; simpl; [lia|].
  case_bool_decide as Hx.
  - intros _. exists 0%nat. subst x. simpl. by destruct s.
  - intros H. destruct IH as [m Hm]; [lia|]. by exists (S m).
Qed.

Lemma substring_one_count c s m :
  String.substring m 1 s = String c "" -> (0 < count_char c s)%nat.
Proof.
  revert m. induction s as [|x s IH]; intros m; simpl.
  - destruct m; discriminate.
  - destruct m as [|m].
    + destruct s; simpl; intros [= ->]; rewrite bool_decide_eq_true_2 by done; lia.
    + intros H%IH. lia.
Qed.

Lemma str_includes_question s :
  str_includes s "?" = negb (bool_decide (count_char "?" s = 0%nat)).
Proof.
  unfold str_includes.
  destruct (String.index 0 "?" s) as [m|] eqn:Hi.
  - apply String.index_correct1 in Hi. simpl in Hi.
    apply substring_one_count in Hi. rewrite bool_decide_eq_false_2; [done|lia].
  - case_bool_decide as Hc; [done|].
    destruct (substring_one_found "?" s) as [m Hm]; [lia|].
    exfalso. eapply (String.index_correct3 0 m); eauto with lia.
Qed.

Lemma length_set_prop k v ps :
  length (set_prop k v ps) =
  match assoc k ps with Some _ => length ps | None => S (length ps) end.
Proof.
  induction ps as [|[k' v'] ps IH]; simpl; [done|].
  case_bool_decide; simpl; [done|]. rewrite IH. by destruct (assoc k ps).
Qed.

(** X9. Whatever the parameters hold, they put into the URL exactly one
    [=] each and one [&] between two of them and nothing else that
    structures a query: the URL [_buildUrl] returns has the [?], [&] and
    [=] of the base URL and of the endpoint, the one separator the client
    adds ([?] if the endpoint has none, [&] otherwise), and one pair per
    parameter sent ([token] included). *)
Theorem buildUrl_separators (c : client) (h : heap) (endpoint : string)
    (params : list (string * value)) :
  let url := _buildUrl c h endpoint params in
  let fixed ch := (count_char ch (baseUrl c) + count_char ch endpoint)%nat in
  let sent :=
    match assoc "token" params with
    | Some _ => length params
    | None => S (length params)
    end in
  let fresh_query := bool_decide (count_char "?" endpoint = 0%nat) in
  count_char "?" url = (fixed "?"%char + if fresh_query then 1 else 0)%nat ∧
  count_char "&" url = (fixed "&"%char + (sent - 1) + if fresh_query then 0 else 1)%nat ∧
  count_char "=" url = (fixed "="%char + sent)%nat.
Proof.
  intros url fixed sent fresh_query. unfold url, _buildUrl.
  set (ps := if negb (truthy (default VUndefined (assoc "token" params)))
             then set_prop "token" (VStr (token c)) params else params).
  assert (Hlen : length ps = sent).
  { unfold ps, sent. destruct (assoc "token" params) as [v|] eqn:Ha; simpl.
    - destruct (truthy v); simpl; [done|]. by rewrite length_set_prop, Ha.
    - by rewrite length_set_prop, Ha. }
  assert (Hpos : (0 < sent)%nat).
  { unfold sent. destruct (assoc "token" params) eqn:Ha; [|lia].
    destruct params; [discriminate|simpl; lia]. }
  assert (Hq : URLSearchParams_toString h ps ≠ "").
  { unfold URLSearchParams_toString. apply concat_nonempty.
    - destruct ps; [simpl in Hlen; lia | done].
    - intros x Hx%list_elem_of_In%in_map_iff. destruct Hx as (kv & <- & _).
      apply encode_pair_nonempty. }
  rewrite bool_decide_eq_false_2 by done. simpl negb. cbv iota.
  rewrite str_includes_question. fold fresh_query.
  rewrite !count_char_app.
  rewrite !(query_count h ps) by (unfold structural; auto).
  rewrite Hlen. unfold fixed.
  destruct fresh_query; vm_compute bool_decide; simpl; lia.
Qed.

Lemma ToString_string h s : ToString h (VStr s) = s.
Proof. reflexivity. Qed.


Section Writes.

Context {S : Type}.
Variable serve : http_request -> S -> result http_response * S.
Variable h : heap.


End Writes.


End ApiClientMore.

Module CouponsNegativeFacts.

Import TestDataManager ManagerUse Playwright ApiClient ApiClientFacts PlaywrightFacts
  CleanupFacts CouponsNegativeMore.

Section Steps.

Context {S : Type}.

Lemma bind_run {A B} (m : T S A) (k : A -> T S B) st a st1 :
  m st = (Ok a, st1) -> (m ≫= k) st = k a st1.
Proof. unfold mbind, T_bind. by intros ->. Qed.

Lemma bind_throw {A B} (m : T S A) (k : A -> T S B) st err st1 :
  m st = (Throw err, st1) -> (m ≫= k) st = (Throw err, st1).
Proof. unfold mbind, T_bind. by intros ->. Qed.


End Steps.

Section Helper.

Context {S : Type}.
Variable h : heap.

Lemma optional_get_prop v k :
  truthy (optional_get h v k) = true -> get_prop h v k = Ok (optional_get h v k).
Proof. destruct v; simpl; done. Qed.

Lemma logNegativeResponseDetails_run
    (response : response) (expectedStatus : expected)
    (expectedDataStatus testName : string) (st : session S) :
  let found := optional_get h (data response) "status" in
  let shown := if truthy found then found else VStr "N/A" in
  let first :=
    ("[cupones-negative-tests] 🔍 " ++ testName ++ " - Status HTTP: "
     ++ pretty (status response) ++ ", Data Status: " ++ ToString h shown)%string in
  exists lines,
    logNegativeResponseDetails h response expectedStatus expectedDataStatus testName st =
      (Ok (Details (status response) shown),
       Session (remote st) (trace st) (console st ++ first :: lines) (ledger st)) ∧
    (length lines <= 3)%nat ∧
    (differs (status response) expectedStatus = true ->
     exists rest,
       lines = ("[cupones-negative-tests] ⚠️ Status inesperado: Esperaba "
                ++ show_expected expectedStatus ++ ", recibió "
                ++ pretty (status response))%string :: rest).
Proof.
  intros found shown first. unfold logNegativeResponseDetails.
  fold found. fold shown.
  unfold mbind, T_bind, logger_info, print, mret, T_ret, lift.
  cbn [remote trace console ledger].
  destruct (differs (status response) expectedStatus);
    destruct (negb (bool_decide (shown = VStr expectedDataStatus)) &&
              negb (bool_decide (expectedDataStatus = "N/A")));
    destruct (truthy (optional_get h (data response) "data")) eqn:Hd;
    cbn [remote trace console ledger];
    try rewrite (optional_get_prop _ _ Hd);
    cbn [remote trace console ledger];
    rewrite <- ?app_assoc; cbn [app];
    eexists; (split; [reflexivity|]); (split; [simpl; lia|]);
    intros Hx; try discriminate Hx; eexists; reflexivity.
Qed.

Lemma quiet_logNegativeResponseDetails response expectedStatus expectedDataStatus testName :
  quiet (S := S)
    (logNegativeResponseDetails h response expectedStatus expectedDataStatus testName).
Proof.
  intros st.
  destruct (logNegativeResponseDetails_run response expectedStatus expectedDataStatus
              testName st) as (lines & -> & _).
  split; [done|]. exists []. simpl. by rewrite app_nil_r.
Qed.


End Helper.

Section Suite.

Context {S : Type}.
Variable serve : http_request -> S -> result http_response * S.
Variable h : heap.
Variable e : env.




End Suite.



Section Fixtures.

Context {S : Type}.
Variable serve : http_request -> S -> result http_response * S.
Variable h : heap.
Variable e : env.















End Fixtures.





Section Tracked.

Context {S : Type}.
Variable serve : http_request -> S -> result http_response * S.
Variable h : heap.
Variable e : env.


End Tracked.


Section Verdicts.

Context {S : Type}.
Variable serve : http_request -> S -> result http_response * S.
Variable h : heap.
Variable e : env.





End Verdicts.


Section Lookups.

Context {S : Type}.
Variable serve : http_request -> S -> result http_response * S.
Variable h : heap.
Variable e : env.



End Lookups.


End CouponsNegativeFacts.

Module BeforeAllFacts.

Import TestDataManager TestDataManagerFacts TestDataManagerMore ManagerUse Playwright ApiClient
  ApiClientFacts PlaywrightFacts CouponsNegativeMore CouponsNegativeFacts.

Section Seeds.

Context {S : Type}.
Variable serve : http_request -> S -> result http_response * S.
Variable h : heap.
Variable e : env.

Lemma get_own_fresh_array (h0 : heap) l es v k :
  h0 !! l = None -> get_own (<[l := OArr es]> h0) v k = get_own h0 v k.
Proof.
  intros Hl. destruct v as [| | | | |l0]; try done. simpl.
  destruct (decide (l0 = l)) as [->|Hne].
  - by rewrite lookup_insert_eq, Hl.
  - by rewrite lookup_insert_ne.
Qed.

Lemma get_prop_ext (h1 h2 : heap) v k :
  (forall v k, get_own h1 v k = get_own h2 v k) -> get_prop h1 v k = get_prop h2 v k.
Proof.
  intros Hext. destruct v; try reflexivity. unfold get_prop. f_equal. apply Hext.
Qed.

Lemma extractGroupIds_ext (h1 h2 : heap) raw :
  (forall v k, get_own h1 v k = get_own h2 v k) ->
  extractGroupIds h1 raw = extractGroupIds h2 raw.
Proof.
  intros Hext. induction raw as [|v raw IH]; simpl; [done|].
  unfold extractGroupId. rewrite (get_prop_ext h1 h2 v "_id" Hext). by rewrite IH.
Qed.

(** The request of the hook. *)
Lemma beforeAll_request c :
  get_request c h "/api/coupon" [("limit", VNum 50); ("offset", VNum 0)] =
  Request GET
    (baseUrl c ++ "/api/coupon?limit=50&offset=0&token=" ++ urlencode (token c))
    [("X-API-Token", token c)] None.
Proof.
  unfold get_request. f_equal.
Qed.

(** The manager after the hook ingested a list without holes. *)
Lemma beforeAll_ingest body :
  is_list_response h body = true ->
  let cs := elements h (get_own h body "data") in
  scanned cs = cs ->
  let r := processCouponsData body (new_TestDataManager h) in
  r.1 = Ok tt ∧ inv r.2 ∧
  contents groupIds r.2 =
    dedup_first (filter (fun v => truthy v) (map (resolveGroup h) cs)) ∧
  contents couponCodes r.2 =
    dedup_first (filter (fun v => truthy v) (map (codeOf h) cs)) ∧
  contents coupons r.2 = cs ∧
  (forall v k, get_own (mem r.2) v k = get_own h v k).
Proof.
  intros Hl cs Hcs r.
  pose proof (fresh3_separate h) as Hs0.
  set (m0 := fresh3 h). set (h0 := layout m0 ix0 h).
  change (new_TestDataManager h) with (World m0 h0) in r.
  destruct (is_list_response_layout m0 ix0 h body Hs0 Hl) as [Hl0 Hcs0].
  fold h0 in Hl0, Hcs0. fold cs in Hcs0.
  pose proof Hl0 as [Ha Harr]%is_list_response_true.
  assert (Hext0 : forall v k, get_own h0 v k = get_own h v k).
  { intros v k. apply get_own_layout. exact Hs0. }
  assert (Er : r = ((scan h0 cs ix0).1,
                    World (fresh3 h0) (layout (fresh3 h0) (scan h0 cs ix0).2 h0))).
  { unfold r. rewrite processCouponsData_array by done. by rewrite Hcs0. }
  destruct (process_indexes body m0 h0 Hl0) as (Eg & Ec).
  destruct (process_contents body m0 h0 Hl0) as (_ & _ & Ek).
  cbv zeta in Eg, Ec, Ek. rewrite Hcs0 in Eg, Ec, Ek. rewrite Hcs in Eg, Ec.
  fold r in Eg, Ec, Ek.
  split; [rewrite Er; simpl; by apply scan_outcome|].
  split; [apply inv_process, reachable_inv, reach_new|].
  split.
  { rewrite Eg. f_equal. f_equal. apply map_ext. intros c.
    unfold resolveGroup. by rewrite !Hext0. }
  split.
  { rewrite Ec. f_equal. f_equal. apply map_ext. intros c. apply Hext0. }
  split.
  { rewrite Ek.
    assert (Hk : forall cs' ix, scanned cs' = cs' ->
              ix_coupons (scan h0 cs' ix).2 = ix_coupons ix ++ cs').
    { induction cs' as [|c cs' IH]; intros ix Hsc; simpl; [by rewrite app_nil_r|].
      simpl in Hsc. destruct (nullish c) eqn:Hn; [discriminate Hsc|].
      injection Hsc as Hsc.
      destruct c; try discriminate Hn; simpl; rewrite IH by done; simpl;
        by rewrite <- app_assoc. }
    by rewrite Hk. }
  intros v k. rewrite Er. simpl.
  rewrite get_own_layout by apply fresh3_separate. apply Hext0.
Qed.

Lemma still_bind {A B} (m : T S A) (k : A -> T S B) :
  (forall st, (m st).2 = st) -> (forall a st, (k a st).2 = st) ->
  forall st, ((m ≫= k) st).2 = st.
Proof.
  intros Hm Hk st. unfold mbind, T_bind. specialize (Hm st).
  destruct (m st) as [[a|err] st']; simpl in *; subst st'; [apply Hk | done].
Qed.

(** What the hook reads back from the manager. *)
Lemma seeds_read (w1 : world) (st1 : session S) :
  inv w1 ->
  (forall v k, get_own (mem w1) v k = get_own h v k) ->
  exists ids w3,
    (rawGroupIds ← lift (getAllGroupIds w1).1;
     extracted ← lift (extractGroupIds (mem (getAllGroupIds w1).2)
                         (elements (mem (getAllGroupIds w1).2) rawGroupIds));
     existing ← lift (getAllCouponCodes (getAllGroupIds w1).2).1;
     mret (Suite extracted
             (elements (mem (getAllCouponCodes (getAllGroupIds w1).2).2) existing)
             (getAllCouponCodes (getAllGroupIds w1).2).2)) st1 =
    (Ok (Suite ids (contents couponCodes w1) w3), st1) ∧
    extractGroupIds h (contents groupIds w1) = Ok ids ∧
    contents coupons w3 = contents coupons w1.
Proof.
  intros Hinv Hext.
  destruct Hinv as [(gs & Hgs & Hgt & _) (ks & Hks & _) (xs & Hxs)].
  assert (EG : contents groupIds w1 = gs) by (unfold contents; simpl; by rewrite Hgs).
  set (l2 := fresh (dom (mem w1))).
  set (h2 := <[l2 := OArr (contents groupIds w1)]> (mem w1)).
  assert (Hfr2 : mem w1 !! l2 = None) by apply not_elem_of_dom, is_fresh.
  assert (Hcopy : getAllGroupIds w1 = (Ok (VRef l2), World (this w1) h2))
    by apply spread_spec.
  set (w2 := World (this w1) h2).
  assert (Hext2 : forall v k, get_own h2 v k = get_own h v k).
  { intros v k. unfold h2. rewrite get_own_fresh_array by done. apply Hext. }
  assert (Hel2 : elements h2 (VRef l2) = contents groupIds w1).
  { unfold h2. simpl. by rewrite lookup_insert_eq. }
  destruct (extractGroupIds_truthy h2 (contents groupIds w1))
    as (ids & Hids & Hlen & _).
  { by rewrite EG. }
  assert (Hc2 : contents couponCodes w2 = contents couponCodes w1).
  { apply (contents_keep couponCodes w1 h2). unfold h2.
    rewrite lookup_insert_ne; [done|]. intros E. rewrite <- E, Hfr2 in Hks.
    discriminate Hks. }
  assert (Hk2 : contents coupons w2 = contents coupons w1).
  { apply (contents_keep coupons w1 h2). unfold h2.
    rewrite lookup_insert_ne; [done|]. intros E. rewrite <- E, Hfr2 in Hxs.
    discriminate Hxs. }
  set (l3 := fresh (dom h2)).
  set (h3 := <[l3 := OArr (contents couponCodes w2)]> h2).
  assert (Hfr3 : h2 !! l3 = None) by apply not_elem_of_dom, is_fresh.
  assert (Hcodes : getAllCouponCodes w2 = (Ok (VRef l3), World (this w1) h3))
    by apply spread_spec.
  assert (Hel3 : elements h3 (VRef l3) = contents couponCodes w2).
  { unfold h3. simpl. by rewrite lookup_insert_eq. }
  assert (Hk3 : contents coupons (World (this w1) h3) = contents coupons w1).
  { rewrite <- Hk2. apply (contents_keep coupons w2 h3). unfold h3.
    rewrite lookup_insert_ne; [done|]. intros E.
    assert (Hx : h2 !! coupons (this w1) = Some (OArr xs)).
    { unfold h2. rewrite lookup_insert_ne; [done|]. intros E'.
      rewrite <- E', Hfr2 in Hxs. discriminate Hxs. }
    simpl in E. rewrite <- E, Hfr3 in Hx. discriminate Hx. }
  exists ids, (World (this w1) h3).
  split; [|split; [|exact Hk3]].
  - rewrite Hcopy. cbn [fst snd mem]. fold w2. rewrite Hcodes. cbn [fst snd mem].
    erewrite bind_run; [|reflexivity].
    rewrite Hel2.
    erewrite bind_run; [|unfold lift; rewrite Hids; reflexivity].
    erewrite bind_run; [|reflexivity].
    rewrite Hel3, Hc2. reflexivity.
  - rewrite <- Hids. symmetry. by apply extractGroupIds_ext.
Qed.

Lemma beforeAll_run (c : client) (st : session S) :
  new_ApiClient e = Ok c ->
  let rq :=
    Request GET
      (baseUrl c ++ "/api/coupon?limit=50&offset=0&token=" ++ urlencode (token c))
      [("X-API-Token", token c)] None in
  let ans := (serve rq (remote st)).1 in
  let run := beforeAll serve h e st in
  let unseeded :=
    exists su, run.1 = Ok su ∧ extractedGroupIds su = [] ∧ existingCouponCodes su = [] in
  trace run.2 = trace st ++ [(rq, ans)] ∧
  ledger run.2 = ledger st ∧
  forall raw body,
    ans = Ok raw -> resp_json raw = Ok body ->
    (resp_status raw ≠ 200 -> unseeded) ∧
    (resp_status raw = 200 ->
     (body = VNull ->
      run.1 = Throw (TypeError "Cannot read properties of null (reading 'status')")) ∧
     (forall s, get_prop h body "status" = Ok s -> s ≠ VStr "OK" -> unseeded) ∧
     (get_prop h body "status" = Ok (VStr "OK") ->
      let payload := get_own h body "data" in
      let cs := elements h payload in
      (is_list_response h body = false ->
       (forall l, payload = VRef l -> is_Some (h !! l)) -> unseeded) ∧
      (is_list_response h body = true -> scanned cs ≠ cs -> exists err, run.1 = Throw err) ∧
      (is_list_response h body = true -> scanned cs = cs ->
       exists su,
         run.1 = Ok su ∧
         extractGroupIds h
           (dedup_first (filter (fun v => truthy v) (map (resolveGroup h) cs))) =
           Ok (extractedGroupIds su) ∧
         existingCouponCodes su =
           dedup_first (filter (fun v => truthy v) (map (codeOf h) cs)) ∧
         contents coupons (testDataManager su) = cs))).
Proof.
  intros Hc rq ans run unseeded.
  pose proof (get_run serve h c "/api/coupon" [("limit", VNum 50); ("offset", VNum 0)] st)
    as Hget.
  unfold after_call in Hget. rewrite beforeAll_request in Hget.
  fold rq in Hget. fold ans in Hget.
  assert (Hrun : run = (beforeAll serve h e st)) by reflexivity.
  unfold beforeAll in Hrun. cbv zeta in Hrun.
  erewrite bind_run in Hrun; [|unfold lift; by rewrite Hc].
  destruct (normalize ans) as [resp|err] eqn:Hn.
  2:{ rewrite (bind_throw _ _ _ _ _ Hget) in Hrun. rewrite Hrun. cbn [fst snd trace ledger].
      split; [done|]. split; [done|]. intros raw body Hans Hj.
      rewrite Hans in Hn. unfold normalize in Hn. rewrite Hj in Hn. discriminate Hn. }
  rewrite (bind_run _ _ _ _ _ Hget) in Hrun.
  set (st1 := Session _ _ _ _) in Hrun.
  assert (Hst : run.2 = st1).
  { rewrite Hrun.
    repeat first
      [ apply still_bind; [|intros ? ?]
      | match goal with
        | |- forall _, _ => intros ?
        | |- context [if ?b then _ else _] => destruct b
        end
      | reflexivity ]. }
  assert (Hquiet : forall r : result suite * session S,
            r.2 = st1 -> trace r.2 = trace st ++ [(rq, ans)] ∧ ledger r.2 = ledger st).
  { by intros r ->. }
  assert (Hbody : forall raw body, ans = Ok raw -> resp_json raw = Ok body ->
            resp = Response (resp_status raw) body).
  { intros raw body Hans Hj. rewrite Hans in Hn. unfold normalize in Hn.
    rewrite Hj in Hn. by injection Hn as <-. }
  assert (Hempty : forall r : result suite * session S,
            r = (Ok (Suite [] [] (new_TestDataManager h)), st1) ->
            exists su, r.1 = Ok su ∧ extractedGroupIds su = [] ∧ existingCouponCodes su = []).
  { intros r ->. eexists. split; [reflexivity|]. done. }
  destruct (bool_decide (status resp = 200)) eqn:H200.
  2:{ erewrite bind_run in Hrun; [|reflexivity]. cbv beta iota in Hrun.
      unfold mret, T_ret in Hrun.
      split; [by apply (Hquiet run)|].
      split; [by apply (Hquiet run)|].
      intros raw body Hans Hj. rewrite (Hbody raw body Hans Hj) in *.
      cbn [status] in H200. apply bool_decide_eq_false_1 in H200.
      split; [intros _; by apply Hempty|]. intros Hx. done. }
  apply bool_decide_eq_true_1 in H200. cbv beta iota in Hrun.
  destruct (get_prop h (data resp) "status") as [s|err] eqn:Hs.
  2:{ erewrite bind_throw in Hrun;
        [|erewrite bind_throw; [reflexivity | reflexivity]].
      split; [by apply (Hquiet run)|].
      split; [by apply (Hquiet run)|].
      intros raw body Hans Hj. rewrite (Hbody raw body Hans Hj) in *.
      cbn [status data] in *.
      split; [intros Hx; done|]. intros _.
      split; [intros ->; rewrite Hrun; simpl in Hs; by injection Hs as <-|].
      split; [intros s Hx; congruence | intros Hx; congruence]. }
  erewrite bind_run in Hrun;
    [|erewrite bind_run; [reflexivity | reflexivity]].
  destruct (bool_decide (s = VStr "OK")) eqn:HOK.
  2:{ cbv beta iota in Hrun. unfold mret, T_ret in Hrun.
      apply bool_decide_eq_false_1 in HOK.
      split; [by apply (Hquiet run)|].
      split; [by apply (Hquiet run)|].
      intros raw body Hans Hj. rewrite (Hbody raw body Hans Hj) in *.
      cbn [status data] in *.
      split; [intros Hx; done|]. intros _.
      split; [intros ->; simpl in Hs; congruence|].
      split; [intros s' Hx _; by apply Hempty|].
      intros Hx. congruence. }
  apply bool_decide_eq_true_1 in HOK. subst s. cbv beta iota in Hrun.
  set (ingested := processCouponsData (data resp) (new_TestDataManager h)) in Hrun.
  set (payload := get_own h (data resp) "data").
  set (cs := elements h payload).
  pose proof (fresh3_separate h) as Hs0.
  assert (Hcases :
    (is_list_response h (data resp) = false ->
     (forall l, payload = VRef l -> is_Some (h !! l)) -> unseeded) ∧
    (is_list_response h (data resp) = true -> scanned cs ≠ cs ->
     exists err, run.1 = Throw err) ∧
    (is_list_response h (data resp) = true -> scanned cs = cs ->
     exists su,
       run.1 = Ok su ∧
       extractGroupIds h
         (dedup_first (filter (fun v => truthy v) (map (resolveGroup h) cs))) =
         Ok (extractedGroupIds su) ∧
       existingCouponCodes su =
         dedup_first (filter (fun v => truthy v) (map (codeOf h) cs)) ∧
       contents coupons (testDataManager su) = cs)).
  { split; [|split].
    - intros Hl Hlive.
      assert (Hnoop : ingested = (Ok tt, new_TestDataManager h)).
      { unfold ingested. apply processCouponsData_noop.
        change (mem (new_TestDataManager h)) with (layout (fresh3 h) ix0 h).
        rewrite get_own_layout by done. fold payload.
        unfold is_list_response in Hl. fold payload in Hl.
        destruct (truthy (data resp)); [|by left].
        destruct (truthy payload) eqn:Hd; [|right; by left].
        right; right. simpl in Hl.
        destruct payload as [| | | | |l]; try reflexivity.
        destruct (Hlive l eq_refl) as [o Ho].
        simpl in Hl |- *. rewrite layout_old; [|by rewrite Ho|done].
        rewrite Ho in Hl |- *. by destruct o. }
      destruct (seeds_read (new_TestDataManager h) st1) as (ids & w3 & Htail & Hids & _).
      { apply reachable_inv, reach_new. }
      { intros v k. change (mem (new_TestDataManager h)) with (layout (fresh3 h) ix0 h).
        by apply get_own_layout. }
      assert (Eg0 : contents groupIds (new_TestDataManager h) = []).
      { change (new_TestDataManager h) with (World (fresh3 h) (layout (fresh3 h) ix0 h)).
        by rewrite contents_layout_groupIds. }
      assert (Ec0 : contents couponCodes (new_TestDataManager h) = []).
      { change (new_TestDataManager h) with (World (fresh3 h) (layout (fresh3 h) ix0 h)).
        by rewrite contents_layout_couponCodes. }
      rewrite Eg0 in Hids. injection Hids as <-. rewrite Ec0 in Htail.
      unfold unseeded. rewrite Hrun.
      erewrite bind_run; [|unfold lift; rewrite Hnoop; reflexivity]. cbv beta.
      rewrite Hnoop. cbn [snd]. rewrite Htail. eexists. split; [reflexivity|done].
    - intros Hl Hcs.
      destruct (is_list_response_layout (fresh3 h) ix0 h (data resp) Hs0 Hl)
        as [Hl0 Hcs0].
      pose proof Hl0 as [Ha Harr]%is_list_response_true.
      assert (Hthrow : exists err, ingested.1 = Throw err).
      { unfold ingested.
        change (new_TestDataManager h)
          with (World (fresh3 h) (layout (fresh3 h) ix0 h)).
        rewrite processCouponsData_array by done. cbn [fst]. rewrite Hcs0.
        fold payload. fold cs.
        destruct (scan (layout (fresh3 h) ix0 h) cs ix0).1 as [[]|err] eqn:Hsc;
          [|eauto].
        by apply scan_outcome in Hsc. }
      destruct Hthrow as (err & Herr). exists err. rewrite Hrun.
      erewrite bind_throw; [reflexivity|]. unfold lift. rewrite Herr. reflexivity.
    - intros Hl Hcs.
      destruct (beforeAll_ingest (data resp) Hl Hcs)
        as (Hok & Hinv & Eg & Ec & Ek & Hext).
      fold ingested in Hok, Hinv, Eg, Ec, Ek, Hext.
      fold payload in Eg, Ec, Ek. fold cs in Eg, Ec, Ek.
      destruct (seeds_read ingested.2 st1 Hinv Hext) as (ids & w3 & Htail & Hids & Hk3).
      rewrite Hrun.
      erewrite bind_run; [|unfold lift; rewrite Hok; reflexivity]. cbv beta.
      rewrite Htail. eexists. split; [reflexivity|].
      cbn [extractedGroupIds existingCouponCodes testDataManager].
      split; [by rewrite <- Eg|]. split; [exact Ec|]. by rewrite Hk3. }
  destruct Hcases as (Hnot & Hholes & Hseed).
  split; [by apply (Hquiet run)|]. split; [by apply (Hquiet run)|].
  intros raw body Hans Hj. pose proof (Hbody raw body Hans Hj) as Hresp.
  subst resp. cbn [status data] in *.
  split; [intros Hx; done|]. intros _.
  split; [intros ->; simpl in Hs; congruence|].
  split; [intros s' Hx Hne; congruence|].
  intros _. exact (conj Hnot (conj Hholes Hseed)).
Qed.

(** X17. The [beforeAll] hook sends one GET for the first fifty coupons
    and tracks nothing.  An answer other than 200 with domain status
    ["OK"], and a 200/["OK"] answer whose payload is not an array, leave
    both seed lists empty; a body that is [null] makes the hook throw a
    [TypeError]; a list with a [null] or [undefined] element makes it
    throw as well.  From a list without such elements the existing
    codes are the truthy codes in order of first occurrence, the group
    identifiers are the distinct truthy groups passed through the
    second normalisation, and the manager holds the whole list. *)
Theorem beforeAll_seeds_from_listing (c : client) (st : session S) :
  new_ApiClient e = Ok c ->
  let rq :=
    Request GET
      (baseUrl c ++ "/api/coupon?limit=50&offset=0&token=" ++ urlencode (token c))
      [("X-API-Token", token c)] None in
  let ans := (serve rq (remote st)).1 in
  let run := beforeAll serve h e st in
  let unseeded :=
    exists su, run.1 = Ok su ∧ extractedGroupIds su = [] ∧ existingCouponCodes su = [] in
  trace run.2 = trace st ++ [(rq, ans)] ∧
  ledger run.2 = ledger st ∧
  forall raw body,
    ans = Ok raw -> resp_json raw = Ok body ->
    (resp_status raw ≠ 200 -> unseeded) ∧
    (resp_status raw = 200 ->
     (body = VNull ->
      run.1 = Throw (TypeError "Cannot read properties of null (reading 'status')")) ∧
     (forall s, get_prop h body "status" = Ok s -> s ≠ VStr "OK" -> unseeded) ∧
     (get_prop h body "status" = Ok (VStr "OK") ->
      let payload := get_own h body "data" in
      let cs := elements h payload in
      (is_list_response h body = false ->
       (forall l, payload = VRef l -> is_Some (h !! l)) -> unseeded) ∧
      (is_list_response h body = true -> scanned cs ≠ cs -> exists err, run.1 = Throw err) ∧
      (is_list_response h body = true -> scanned cs = cs ->
       exists su,
         run.1 = Ok su ∧
         extractGroupIds h
           (dedup_first (filter (fun v => truthy v) (map (resolveGroup h) cs))) =
           Ok (extractedGroupIds su) ∧
         existingCouponCodes su =
           dedup_first (filter (fun v => truthy v) (map (codeOf h) cs)) ∧
         contents coupons (testDataManager su) = cs))).
Proof. apply beforeAll_run. Qed.



End Seeds.

(** The listing of the sample heap: four coupons, two groups (one given
    as an object with [_id], one as a string), and the codes [AAA],
    [AAA], [BBB] and the empty string. *)
Lemma beforeAll_seeds_from_listing_witness :
  let run := beforeAll (Scripted.serve [Scripted.answer 200 1]) sample_heap
               Scripted.env0 Scripted.start in
  exists su,
    run.1 = Ok su ∧
    extractedGroupIds su = [VStr "g1"; VStr "g2"] ∧
    existingCouponCodes su = [VStr "AAA"; VStr "BBB"].
Proof.
  intros run.
  destruct (beforeAll_seeds_from_listing (Scripted.serve [Scripted.answer 200 1])
              sample_heap Scripted.env0 Scripted.client0 Scripted.start eq_refl)
    as (_ & _ & H).
  destruct (H (HttpResponse 200 (Ok (VRef 1))) (VRef 1) eq_refl eq_refl) as (_ & H200).
  destruct (H200 eq_refl) as (_ & _ & Hok).
  destruct (Hok eq_refl) as (_ & _ & Hseed).
  destruct (Hseed ltac:(vm_compute; reflexivity) ltac:(vm_compute; reflexivity))
    as (su & Hrun & Hg & Hc & _).
  exists su. split; [exact Hrun|]. split.
  - assert (E : Ok (extractedGroupIds su) = Ok [VStr "g1"; VStr "g2"]).
    { etransitivity; [symmetry; exact Hg|]. vm_compute. reflexivity. }
    by injection E.
  - etransitivity; [exact Hc|]. vm_compute. reflexivity.
Defined.


End BeforeAllFacts.
